(** * ViT-SNGP on JFT-300M: the training script [baselines/jft/sngp.py]

    A shallow embedding of the orchestration code of [sngp.py]: the gradient
    accumulator, the start-up checks and the resume decision of [main], the
    weight-decay step of [update_fn], the validation loop and the checkpoint
    block of the training loop.

    Conventions.
    - Python integers are [Z]; [%] and [//] with a positive divisor are
      [Z.modulo] and [Z.div].
    - Array entries, losses and rates are exact rationals [Q]; equality of
      numeric results is [Qeq].  Rounding is not modelled there.  The two
      step counts that [main] takes from a float quotient ([total_steps] and
      [val_steps]) are computed in binary64 ([PyFloat]).
    - [config.get(k)] is an [option]: [None] when the key is absent; Python
      truthiness is written out ([truthyZ], [truthy_str]).
    - A raised exception is the [Raise] constructor of [result]. *)

From Stdlib Require Import Ascii String DecimalString DecimalNat ZArith QArith
  Qminmax Qabs Qfield SpecFloat Bool Lia Setoid Morphisms List.
Import ListNotations.

Local Open Scope Z_scope.

(** ** Exceptions and results *)

Inductive exn : Type :=
| AssertionError (msg : string)
| ValueError (msg : string)
| ZeroDivisionError
| AttributeError (name : string)
| OverflowError
| IOError
| TimeoutError.

Inductive result (A : Type) : Type :=
| Ok (a : A)
| Raise (e : exn).

Arguments Ok {A} a.
Arguments Raise {A} e.

Definition bind {A B : Type} (m : result A) (k : A -> result B) : result B :=
  match m with
  | Ok a => k a
  | Raise e => Raise e
  end.

Notation "x <- m ;; k" := (bind m (fun x => k))
  (at level 61, m at next level, right associativity).
Notation "m ;;; k" := (bind m (fun _ => k))
  (at level 61, right associativity).

(** [assert cond, msg] *)
Definition py_assert (cond : bool) (msg : string) : result unit :=
  if cond then Ok tt else Raise (AssertionError msg).

(** ** Python truthiness *)

(** [bool(x)] for [x] an [int] or [None]. *)
Definition truthyZ (x : option Z) : bool :=
  match x with
  | Some z => negb (z =? 0)
  | None => false
  end.

(** [bool(s)] for [s] a [str] or [None]. *)
Definition truthy_str (x : option string) : bool :=
  match x with
  | Some s => negb (String.eqb s EmptyString)
  | None => false
  end.

(** [bool(x)] for [x] a number or [None]. *)
Definition truthyQ (x : option Q) : bool :=
  match x with
  | Some q => negb (Qeq_bool q 0)
  | None => false
  end.

(** [bool(x)] for [x] a [bool] or [None]. *)
Definition truthy_bool (x : option bool) : bool :=
  match x with
  | Some b => b
  | None => false
  end.

(** ** Sums of rationals *)

Definition Qsum (l : list Q) : Q := fold_right Qplus 0%Q l.

(** The mean of a batch of per-example values. *)
Definition Qmean (l : list Q) : Q := (Qsum l / inject_Z (Z.of_nat (length l)))%Q.

(** ** Python floats

    Binary64 numbers as [spec_float], with the operations of the standard
    library's [SpecFloat] at precision 53. *)

Module PyFloat.

Definition prec : Z := 53.
Definition emax : Z := 1024.

(** An integer as an unrounded operand. *)
Definition exact_int (z : Z) : spec_float :=
  match z with
  | Z0 => S754_zero false
  | Zpos p => S754_finite false p 0
  | Zneg p => S754_finite true p 0
  end.

(** The double nearest to [a / b], for a divisor that is not zero: what
    [a / b] gives for two [int]s ([inf] standing for the [OverflowError] of
    a quotient too large for a float). *)
Definition nearest_quotient (a b : Z) : spec_float :=
  SFdiv prec emax (exact_int a) (exact_int b).

(** [a / b] for two [int]s. *)
Definition int_truediv (a b : Z) : result spec_float :=
  if b =? 0 then Raise ZeroDivisionError
  else
    match nearest_quotient a b with
    | S754_infinity _ => Raise OverflowError
    | x => Ok x
    end.

(** A number of the configuration as an operand of float arithmetic: the
    double nearest to it; an [int] too large for a float raises. *)
Definition float_of_Q (q : Q) : result spec_float :=
  match nearest_quotient (Qnum q) (Zpos (Qden q)) with
  | S754_infinity _ => Raise OverflowError
  | x => Ok x
  end.

(** [x * y] *)
Definition mul (x y : spec_float) : spec_float := SFmul prec emax x y.

(** [int(x)]: truncation towards zero. *)
Definition to_int (x : spec_float) : result Z :=
  match x with
  | S754_zero _ => Ok 0
  | S754_finite s m e =>
      let magnitude := if 0 <=? e then Zpos m * 2 ^ e else Zpos m / 2 ^ (- e) in
      Ok (if s then - magnitude else magnitude)
  | S754_infinity _ => Raise OverflowError
  | S754_nan => Raise (ValueError "cannot convert float NaN to integer")
  end.

(** [int(np.ceil(x))] *)
Definition ceil_to_int (x : spec_float) : result Z :=
  match x with
  | S754_zero _ => Ok 0
  | S754_finite s m e =>
      if 0 <=? e then Ok (if s then - (Zpos m * 2 ^ e) else Zpos m * 2 ^ e)
      else Ok (if s then - (Zpos m / 2 ^ (- e)) else - ((- Zpos m) / 2 ^ (- e)))
  | S754_infinity _ => Raise OverflowError
  | S754_nan => Raise (ValueError "cannot convert float NaN to integer")
  end.

End PyFloat.

(** * The gradient accumulator *)

Module Accumulator.

Section Accum.

(** [params] and [states] are pytrees this function never inspects; the
    gradient is a pytree with the structure of [params], one rational per
    leaf. *)
Variables Params States Img Lbl Leaf : Type.

Definition Grad : Type := Leaf -> Q.

(** [loss_and_grad_fn(params, states, images, labels)] returns
    [((loss, states), grads)]. *)
Variable loss_and_grad_fn :
  Params -> States -> list Img -> list Lbl -> (Q * States) * Grad.

(** [jax.tree_multimap(f, g, gi)] and [jax.tree_map(f, g)] on gradients. *)
Definition tree_multimap (f : Q -> Q -> Q) (g gi : Grad) : Grad :=
  fun leaf => f (g leaf) (gi leaf).

Definition tree_map (f : Q -> Q) (g : Grad) : Grad :=
  fun leaf => f (g leaf).

(** [xs[:n]] for [n >= 0]. *)
Definition py_prefix {A : Type} (xs : list A) (n : Z) : list A :=
  firstn (Z.to_nat n) xs.

(** [jax.lax.dynamic_slice] along the leading axis: a negative start index
    counts from the end, and the start is then clamped so that the slice
    stays inside the array. *)
Definition dynamic_slice {A : Type} (xs : list A) (start size : Z) : list A :=
  let n := Z.of_nat (length xs) in
  let start := if start <? 0 then start + n else start in
  let start' := Z.max 0 (Z.min start (n - size)) in
  firstn (Z.to_nat size) (skipn (Z.to_nat start') xs).

(** [jax.lax.fori_loop(lower, upper, body, init)]. *)
Fixpoint fori_loop_from {S : Type} (body : Z -> S -> S) (i : Z) (count : nat)
    (acc : S) : S :=
  match count with
  | O => acc
  | Datatypes.S c => fori_loop_from body (i + 1) c (body i acc)
  end.

Definition fori_loop {S : Type} (lower upper : Z) (body : Z -> S -> S)
    (init : S) : S :=
  fori_loop_from body lower (Z.to_nat (upper - lower)) init.

(** The loop body [acc_grad_and_loss]. *)
Definition acc_grad_and_loss (params : Params) (images : list Img)
    (labels : list Lbl) (step_size : Z) (i : Z) (l_s_g : Q * States * Grad)
    : Q * States * Grad :=
  let imgs := dynamic_slice images (i * step_size) step_size in
  let lbls := dynamic_slice labels (i * step_size) step_size in
  let '(l, s, g) := l_s_g in
  let '((li, si), gi) := loss_and_grad_fn params s imgs lbls in
  ((l + li)%Q, si, tree_multimap Qplus g gi).

Definition accumulate_gradient_with_states (params : Params) (states : States)
    (images : list Img) (labels : list Lbl) (accum_steps : option Z)
    : result ((Q * States) * Grad) :=
  if truthyZ accum_steps && (1 <? match accum_steps with Some n => n | None => 0 end)
  then
    let n := match accum_steps with Some n => n | None => 0 end in
    let batch := Z.of_nat (length images) in
    py_assert (batch mod n =? 0) "Bad accum_steps for batch size" ;;;
    let step_size := batch / n in
    (* Run the first step. *)
    let '((l, s), g) :=
      loss_and_grad_fn params states (py_prefix images step_size)
                       (py_prefix labels step_size) in
    (* Run the rest of the steps. *)
    let '(l, s, g) :=
      fori_loop 1 n (acc_grad_and_loss params images labels step_size) (l, s, g) in
    Ok (((l / inject_Z n)%Q, s), tree_map (fun x => (x / inject_Z n)%Q) g)
  else
    Ok (loss_and_grad_fn params states images labels).

(** *** The sub-batches, as the specification describes them *)

(** The [i]-th of the equal-sized sub-batches of size [k]. *)
Definition sub_batch {A : Type} (xs : list A) (k i : nat) : list A :=
  firstn k (skipn (i * k) xs).

(** One call of the loss-and-gradient computation on sub-batch [i]. *)
Definition sub_call (params : Params) (images : list Img) (labels : list Lbl)
    (k : nat) (s : States) (i : nat) : (Q * States) * Grad :=
  loss_and_grad_fn params s (sub_batch images k i) (sub_batch labels k i).

(** The auxiliary state handed from sub-batch to sub-batch: the state
    after the sub-batches [start], ..., [start + count - 1]. *)
Fixpoint thread_states (params : Params) (images : list Img) (labels : list Lbl)
    (k : nat) (start count : nat) (s : States) : States :=
  match count with
  | O => s
  | S c =>
      thread_states params images labels k (S start) c
        (snd (fst (sub_call params images labels k s start)))
  end.

(** The state sub-batch [i] receives. *)
Definition state_before (params : Params) (images : list Img) (labels : list Lbl)
    (k : nat) (states : States) (i : nat) : States :=
  thread_states params images labels k 0 i states.

(** Loss and gradient of sub-batch [i], each computed with the same
    [params] and with the state left by sub-batch [i - 1]. *)
Definition sub_loss (params : Params) (states : States) (images : list Img)
    (labels : list Lbl) (k i : nat) : Q :=
  fst (fst (sub_call params images labels k
              (state_before params images labels k states i) i)).

Definition sub_grad (params : Params) (states : States) (images : list Img)
    (labels : list Lbl) (k i : nat) : Grad :=
  snd (sub_call params images labels k
         (state_before params images labels k states i) i).

(** The loss-and-gradient computation is a per-example mean that ignores the
    auxiliary state: [ell] is the loss of one example and [dell] its
    gradient. *)
Definition per_example_mean (params : Params) (ell : Img * Lbl -> Q)
    (dell : Img * Lbl -> Leaf -> Q) : Prop :=
  forall (s : States) (imgs : list Img) (lbls : list Lbl),
    (fst (fst (loss_and_grad_fn params s imgs lbls))
       == Qmean (map ell (combine imgs lbls)))%Q /\
    forall leaf,
      (snd (loss_and_grad_fn params s imgs lbls) leaf
         == Qmean (map (fun z => dell z leaf) (combine imgs lbls)))%Q.

(** The invariant of the accumulation loop: after [m] sub-batches the
    carried triple holds the sum of their losses, the state handed on by
    the last of them, and the leaf-wise sum of their gradients. *)
Definition loop_inv (params : Params) (states : States) (images : list Img)
    (labels : list Lbl) (k m : nat) (acc : Q * States * Grad) : Prop :=
  let '(l, s, g) := acc in
  (l == Qsum (map (sub_loss params states images labels k) (seq 0 m)))%Q /\
  s = thread_states params images labels k 0 m states /\
  forall leaf,
    (g leaf == Qsum (map (fun i => sub_grad params states images labels k i leaf)
                        (seq 0 m)))%Q.

End Accum.

Arguments per_example_mean {Params States Img Lbl Leaf} loss_and_grad_fn
  params ell dell.
Arguments loop_inv {Params States Img Lbl Leaf} loss_and_grad_fn
  params states images labels k m acc.
Arguments tree_multimap {Leaf} f g gi leaf.
Arguments tree_map {Leaf} f g leaf.
Arguments acc_grad_and_loss {Params States Img Lbl Leaf} loss_and_grad_fn
  params images labels step_size i l_s_g.
Arguments accumulate_gradient_with_states {Params States Img Lbl Leaf}
  loss_and_grad_fn params states images labels accum_steps.
Arguments sub_call {Params States Img Lbl Leaf} loss_and_grad_fn
  params images labels k s i.
Arguments thread_states {Params States Img Lbl Leaf} loss_and_grad_fn
  params images labels k start count s.
Arguments state_before {Params States Img Lbl Leaf} loss_and_grad_fn
  params images labels k states i.
Arguments sub_loss {Params States Img Lbl Leaf} loss_and_grad_fn
  params states images labels k i.
Arguments sub_grad {Params States Img Lbl Leaf} loss_and_grad_fn
  params states images labels k i.

(** *** Two loss-and-gradient computations to run the accumulator on

    Both have one scalar weight, scalar images and labels and one gradient
    leaf. *)

(** Mean squared error of the linear model [w * x]; the auxiliary state
    counts the examples seen and does not enter the loss. *)
Definition squared_error_fn (w : Q) (seen : nat) (imgs lbls : list Q)
    : (Q * nat) * Grad unit :=
  ((Qmean (map (fun z => ((w * fst z - snd z) * (w * fst z - snd z))%Q)
               (combine imgs lbls)),
    (seen + length imgs)%nat),
   fun _ => Qmean (map (fun z => (2 * (w * fst z - snd z) * fst z)%Q)
                       (combine imgs lbls))).

(** A model that centres its output with a running statistic kept in the
    auxiliary state: the loss depends on the state it is handed, and the new
    state is the mean of the batch just seen. *)
Definition centred_fn (w : Q) (running_mean : Q) (imgs lbls : list Q)
    : (Q * Q) * Grad unit :=
  ((Qmean (map (fun x => (w * x - running_mean)%Q) imgs), Qmean imgs),
   fun _ => Qmean imgs).

(** The loss a run of the accumulator returned, in lowest terms. *)
Definition returned_loss {S L : Type} (r : result ((Q * S) * Grad L)) : option Q :=
  match r with
  | Ok ((l, _), _) => Some (Qred l)
  | Raise _ => None
  end.

End Accumulator.

(** * The configuration and the environment of [main] *)

(** [config.weight_decay]: absent, one number, or a list of
    [(pattern, coefficient)] rules. *)
Inductive weight_decay_setting : Type :=
| WdAbsent
| WdNumber (wd : Q)
| WdRules (rules : list (string * Q)).

(** The fields of [FLAGS.config] the modelled code reads.  A field read with
    [config.get] is an [option]; [config.batch_size] is read as an attribute
    and is always there. *)
Record Config : Type := {
  checkpoint_steps : option Z;
  keep_checkpoint_steps : option Z;
  checkpoint_timeout : option Z;
  batch_size : Z;
  batch_size_eval : option Z;
  num_epochs : option Q;
  total_steps : option Z;
  resume : option string;
  model_init : option string;
  grad_accum_steps : option Z;
  weight_decay : weight_decay_setting;
  weight_decay_decouple : option bool;
  lr_base : Q
}.

(** What [main] reads from outside the configuration.  [device_count] is
    [jax.device_count()], at least 1.  [fillin] and [u.load_checkpoint] are
    helpers the script calls and does not define; of a loaded checkpoint
    only the optimizer's step is used here. *)
Record Env : Type := {
  output_dir : string;
  device_count : Z;
  gfile_exists : string -> bool;
  ntrain_img : Z;
  fillin : string -> string;
  load_checkpoint_step : string -> result Z
}.

(** The call of the accumulator in [update_fn], with
    [config.get('grad_accum_steps')]. *)
Definition update_loss_and_grad {Params States Img Lbl Leaf : Type}
    (cfg : Config)
    (loss_and_grad_fn :
       Params -> States -> list Img -> list Lbl
       -> (Q * States) * Accumulator.Grad Leaf)
    (target : Params) (states : States) (images : list Img) (labels : list Lbl)
    : result ((Q * States) * Accumulator.Grad Leaf) :=
  Accumulator.accumulate_gradient_with_states loss_and_grad_fn target states
    images labels (grad_accum_steps cfg).

(** * Start-up of [main] and the resume decision *)

Module Main.

Fixpoint ends_with_slash (s : string) : bool :=
  match s with
  | EmptyString => false
  | String c EmptyString => Ascii.eqb c "/"%char
  | String _ rest => ends_with_slash rest
  end.

(** [os.path.join(a, b)] (posix). *)
Definition path_join (a b : string) : string :=
  if String.prefix "/" b then b
  else if String.eqb a EmptyString || ends_with_slash a then (a ++ b)%string
  else (a ++ "/" ++ b)%string.

(** [save_checkpoint_path]: set only when [checkpoint_steps] is configured. *)
Definition save_checkpoint_path (cfg : Config) (env : Env) : option string :=
  if truthyZ (checkpoint_steps cfg)
  then Some (path_join (output_dir env) "checkpoint.npz")
  else None.

(** "Verify settings to make sure no checkpoints are accidentally missed." *)
Definition verify_checkpoint_settings (cfg : Config) : result unit :=
  if truthyZ (keep_checkpoint_steps cfg) then
    py_assert (truthyZ (checkpoint_steps cfg)) "Specify `checkpoint_steps`." ;;;
    py_assert
      (match keep_checkpoint_steps cfg, checkpoint_steps cfg with
       | Some keep, Some every => keep mod every =? 0
       | _, _ => false
       end)
      "`keep_checkpoint_steps` should be divisible by `checkpoint_steps`."
  else Ok tt.

(** The batch sizes must be divisible by the number of devices. *)
Definition check_batch_sizes (cfg : Config) (env : Env) : result (Z * Z) :=
  let batch_size := batch_size cfg in
  let batch_size_eval :=
    match batch_size_eval cfg with Some b => b | None => batch_size end in
  if negb (batch_size mod device_count env =? 0)
     || negb (batch_size_eval mod device_count env =? 0)
  then Raise (ValueError "Batch sizes must be divisible by device number")
  else Ok (batch_size, batch_size_eval).

(** [steps_per_epoch = ntrain_img / batch_size] and [total_steps], which is
    [int(config.num_epochs * steps_per_epoch)] when [num_epochs] is set and
    [config.total_steps] otherwise. *)
Definition compute_total_steps (cfg : Config) (env : Env) : result Z :=
  steps_per_epoch <- PyFloat.int_truediv (ntrain_img env) (batch_size cfg) ;;
  if truthyQ (num_epochs cfg) then
    epochs <-
      PyFloat.float_of_Q (match num_epochs cfg with Some e => e | None => 0 end) ;;
    total <- PyFloat.to_int (PyFloat.mul epochs steps_per_epoch) ;;
    py_assert (negb (truthyZ (total_steps cfg)))
      "Set either num_epochs or total_steps" ;;;
    Ok total
  else
    match total_steps cfg with
    | Some t => Ok t
    | None => Raise (AttributeError "total_steps")
    end.

(** "Decide how to initialize training. The order is important." *)
Definition resume_checkpoint_path (cfg : Config) (env : Env) : option string :=
  let save_checkpoint_path := save_checkpoint_path cfg env in
  if truthy_str save_checkpoint_path
     && match save_checkpoint_path with
        | Some p => gfile_exists env p
        | None => false
        end
  then save_checkpoint_path
  else if truthy_str (resume cfg)
  then option_map (fillin env) (resume cfg)
  else None.

Inductive init_mode : Type :=
| ResumeFrom (path : string)
| TrainFromScratch.

Definition decide_init (cfg : Config) (env : Env) : result init_mode :=
  let resume_checkpoint_path := resume_checkpoint_path cfg env in
  if truthy_str resume_checkpoint_path then
    match resume_checkpoint_path with
    | Some p => Ok (ResumeFrom p)
    | None => Ok TrainFromScratch
    end
  else if truthy_str (model_init cfg) then
    Raise (ValueError
             "Load from `config.model_init` checkpoint is currently not supported.")
  else Ok TrainFromScratch.

(** What the training loop starts from. *)
Record TrainSetup : Type := {
  setup_save_path : option string;
  setup_total_steps : Z;
  setup_init : init_mode;
  setup_first_step : Z
}.

(** [main] up to the training loop.  The data pipelines (with the validation
    splits and their step counts, see [Evaluation.get_val_steps]), the model
    and the optimizer are built in between and are not part of this
    function. *)
Definition main_startup (cfg : Config) (env : Env) : result TrainSetup :=
  let save_checkpoint_path := save_checkpoint_path cfg env in
  verify_checkpoint_settings cfg ;;;
  _ <- check_batch_sizes cfg env ;;
  total_steps <- compute_total_steps cfg env ;;
  init <- decide_init cfg env ;;
  first_step <- match init with
                | ResumeFrom p => load_checkpoint_step env p
                | TrainFromScratch => Ok 0
                end ;;
  Ok {| setup_save_path := save_checkpoint_path;
        setup_total_steps := total_steps;
        setup_init := init;
        setup_first_step := first_step |}.

End Main.

(** * The training loop and its checkpoint block *)

Module TrainLoop.

(** Where the main thread stands: between two iterations, inside
    [u.checkpointing_timeout] with the timeout it was given, stopped by an
    exception, or past [pool.join()]. *)
Inductive control : Type :=
| AtStep
| Waiting (timeout : Z)
| Crashed (e : exn)
| Finished.

(** The loop counter, the handle [checkpoint_writer] of the latest
    [pool.apply_async], and the state of the thread pool: the saves
    submitted and not yet completed, and the completed ones that raised. *)
Record LoopState : Type := {
  step : Z;
  ctl : control;
  checkpoint_writer : option nat;
  in_flight : list nat;
  failed : list nat;
  submitted : nat
}.

(** [config.get('checkpoint_timeout', 1)] *)
Definition timeout_of (cfg : Config) : Z :=
  match checkpoint_timeout cfg with
  | Some t => t
  | None => 1
  end.

Definition init_loop (setup : Main.TrainSetup) : LoopState :=
  {| step := Main.setup_first_step setup;
     ctl := AtStep;
     checkpoint_writer := None;
     in_flight := [];
     failed := [];
     submitted := 0 |}.

(** The update of one step is done; the checkpoint block is entered when
    [u.itstime] says so. *)
Definition after_update (cfg : Config) (enter_checkpoint : bool) (st : LoopState)
    : LoopState :=
  {| step := step st + 1;
     ctl := if enter_checkpoint then Waiting (timeout_of cfg) else AtStep;
     checkpoint_writer := checkpoint_writer st;
     in_flight := in_flight st;
     failed := failed st;
     submitted := submitted st |}.

(** [checkpoint_writer = pool.apply_async(u.save_checkpoint, ...)] *)
Definition apply_async (st : LoopState) : LoopState :=
  {| step := step st;
     ctl := AtStep;
     checkpoint_writer := Some (submitted st);
     in_flight := submitted st :: in_flight st;
     failed := failed st;
     submitted := S (submitted st) |}.

Definition set_ctl (c : control) (st : LoopState) : LoopState :=
  {| step := step st;
     ctl := c;
     checkpoint_writer := checkpoint_writer st;
     in_flight := in_flight st;
     failed := failed st;
     submitted := submitted st |}.

(** A pool worker finishes the save [w], normally or with an exception. *)
Definition complete (w : nat) (raised : bool) (st : LoopState) : LoopState :=
  {| step := step st;
     ctl := ctl st;
     checkpoint_writer := checkpoint_writer st;
     in_flight := remove Nat.eq_dec w (in_flight st);
     failed := if raised then w :: failed st else failed st;
     submitted := submitted st |}.

Section Loop.

Variable cfg : Config.
Variable setup : Main.TrainSetup.

(** [u.itstime(step, every_n_steps, total_steps, host=0)], a helper the
    script calls and does not define. *)
Variable itstime : Z -> option Z -> Z -> bool.

(** Modelled from the spec: [u.checkpointing_timeout(writer, timeout)] is
    not in the script.  Following the specification, starting a save while
    one is pending blocks, with the timeout, until the previous save
    completes: the call returns at once when there is no previous save
    ([wait_none]), returns once the previous save has completed
    ([wait_done]), and ends the run with an exception when that save raised
    ([wait_failed]) or is still pending when the timeout expires
    ([wait_timeout]).  The other constructors are the script's own loop:
    the update of the next step, [pool.apply_async] right after the wait
    returned, the end of the loop with [pool.close()] and [pool.join()],
    and the pool workers completing a save at any moment.  The loop is a
    [zip] over the step range, [train_iter] and [lr_iter]: it ends when the
    range is used up ([loop_end]) and also when one of the two iterators
    is, at whatever step that happens ([loop_exhausted]). *)
Inductive loop_step : LoopState -> LoopState -> Prop :=
| update_step (st : LoopState) :
    ctl st = AtStep ->
    step st < Main.setup_total_steps setup ->
    loop_step st
      (after_update cfg
         (itstime (step st + 1) (checkpoint_steps cfg) (Main.setup_total_steps setup))
         st)
| wait_none (st : LoopState) (t : Z) :
    ctl st = Waiting t ->
    checkpoint_writer st = None ->
    loop_step st (apply_async st)
| wait_done (st : LoopState) (t : Z) (w : nat) :
    ctl st = Waiting t ->
    checkpoint_writer st = Some w ->
    ~ In w (in_flight st) ->
    ~ In w (failed st) ->
    loop_step st (apply_async st)
| wait_failed (st : LoopState) (t : Z) (w : nat) :
    ctl st = Waiting t ->
    checkpoint_writer st = Some w ->
    In w (failed st) ->
    loop_step st (set_ctl (Crashed IOError) st)
| wait_timeout (st : LoopState) (t : Z) (w : nat) :
    ctl st = Waiting t ->
    checkpoint_writer st = Some w ->
    In w (in_flight st) ->
    loop_step st (set_ctl (Crashed TimeoutError) st)
| loop_end (st : LoopState) :
    ctl st = AtStep ->
    Main.setup_total_steps setup <= step st ->
    in_flight st = [] ->
    loop_step st (set_ctl Finished st)
| loop_exhausted (st : LoopState) :
    ctl st = AtStep ->
    in_flight st = [] ->
    loop_step st (set_ctl Finished st)
| save_completes (st : LoopState) (w : nat) (raised : bool) :
    In w (in_flight st) ->
    loop_step st (complete w raised st).

(** The states a run of the loop goes through. *)
Inductive reachable : LoopState -> Prop :=
| reach_init : reachable (init_loop setup)
| reach_step (st st' : LoopState) :
    reachable st -> loop_step st st' -> reachable st'.

(** Every save in flight is the one [checkpoint_writer] points to, and
    handles are fresh. *)
Definition writer_inv (st : LoopState) : Prop :=
  NoDup (in_flight st) /\
  (forall w, In w (in_flight st) -> checkpoint_writer st = Some w) /\
  (forall w, checkpoint_writer st = Some w -> (w < submitted st)%nat).

End Loop.

(** A run of [main]: the loop is entered only when start-up returned. *)
Definition main_reaches (cfg : Config) (env : Env)
    (itstime : Z -> option Z -> Z -> bool) (st : LoopState) : Prop :=
  exists setup,
    Main.main_startup cfg env = Ok setup /\ reachable cfg setup itstime st.

End TrainLoop.

(** * Weight decay in [update_fn] *)

Module WeightDecay.

(** A parameter tree flattened with names: each leaf is an array, here the
    list of its entries. *)
Definition Tree : Type := list (string * list Q).

(** [decay_rules = config.get('weight_decay', []) or []], a single number
    standing for the rule [('.*kernel.*', number)]. *)
Definition decay_rules (cfg : Config) : list (string * Q) :=
  match weight_decay cfg with
  | WdAbsent => []
  | WdNumber wd => if Qeq_bool wd 0 then [] else [(".*kernel.*"%string, wd)]
  | WdRules rules => rules
  end.

(** [sched_m = lr/config.lr.base if config.get('weight_decay_decouple') else lr] *)
Definition sched_m (cfg : Config) (lr : Q) : Q :=
  if truthy_bool (weight_decay_decouple cfg) then (lr / lr_base cfg)%Q else lr.

(** [decay_fn(v, wd) = (1.0 - sched_m * wd) * v], entry by entry. *)
Definition decay_fn (sched_m : Q) (v : list Q) (wd : Q) : list Q :=
  map (fun x => ((1 - sched_m * wd) * x)%Q) v.

Section Regex.

(** [re_match pattern name]: the regular-expression match of Python's [re]. *)
Variable re_match : string -> string -> bool.

(** The configured rules whose pattern matches the name, in their order. *)
Definition matching_rules (regex_rules : list (string * Q)) (name : string)
    : list (string * Q) :=
  filter (fun rule => re_match (fst rule) name) regex_rules.

(** Which of several matching rules decides: the first of them and the
    others are given, one of them is returned. *)
Variable choose : string * Q -> list (string * Q) -> string * Q.

(** Modelled from the spec: [u.tree_map_with_regex(f, tree, regex_rules)] is
    not in the script.  Following the specification, each parameter whose
    name matches a configured rule is given to [f] with the coefficient of
    a matching rule, and a parameter matching no rule is left as it is.
    The specification does not say which rule decides when several match;
    that choice is [choose]. *)
Definition tree_map_with_regex (f : list Q -> Q -> list Q) (tree : Tree)
    (regex_rules : list (string * Q)) : Tree :=
  map (fun '(name, v) =>
         match matching_rules regex_rules name with
         | [] => (name, v)
         | rule :: others => (name, f v (snd (choose rule others)))
         end)
      tree.

(** The decay step of [update_fn]:
    [opt.replace(target=u.tree_map_with_regex(decay_fn, opt.target, decay_rules))]. *)
Definition apply_weight_decay (cfg : Config) (lr : Q) (target : Tree) : Tree :=
  tree_map_with_regex (decay_fn (sched_m cfg lr)) target (decay_rules cfg).

(** What the decay step is to do to one named parameter under the rules
    [rules]: the name is kept; when a rule matches it, every entry is
    multiplied by [1 - rate * wd] for the coefficient [wd] of a matching
    rule, the rate being [lr / lr.base] with [weight_decay_decouple] and
    [lr] without; when no rule matches, the parameter is as before. *)
Definition decayed (cfg : Config) (lr : Q) (rules : list (string * Q))
    (before after : string * list Q) : Prop :=
  fst after = fst before /\
  ((exists pattern wd,
       In (pattern, wd) rules /\
       re_match pattern (fst before) = true /\
       snd after
       = map (fun x =>
                ((1 - (if truthy_bool (weight_decay_decouple cfg)
                       then lr / lr_base cfg else lr) * wd) * x)%Q)
             (snd before))
   \/
   ((forall rule, In rule rules -> re_match (fst rule) (fst before) = false) /\
    snd after = snd before)).

End Regex.

(** The choice of a loop over the rules that stops at the first match. *)
Definition first_match (rule : string * Q) (others : list (string * Q))
    : string * Q :=
  rule.

(** *** A matcher for patterns made of literal characters, [.] and [*] *)

Inductive re_atom : Type :=
| AnyChar
| Literal (c : ascii).

Inductive re_item : Type :=
| Once (a : re_atom)
| Star (a : re_atom).

Definition atom_of (c : ascii) : re_atom :=
  if Ascii.eqb c "."%char then AnyChar else Literal c.

Fixpoint re_parse (pattern : string) : list re_item :=
  match pattern with
  | EmptyString => []
  | String c rest =>
      match rest with
      | String "*"%char rest' => Star (atom_of c) :: re_parse rest'
      | _ => Once (atom_of c) :: re_parse rest
      end
  end.

Definition atom_accepts (a : re_atom) (c : ascii) : bool :=
  match a with
  | AnyChar => true
  | Literal d => Ascii.eqb d c
  end.

Fixpoint re_items_match (items : list re_item) (s : string) : bool :=
  match items with
  | [] => String.eqb s EmptyString
  | Once a :: rest =>
      match s with
      | EmptyString => false
      | String c s' => atom_accepts a c && re_items_match rest s'
      end
  | Star a :: rest =>
      (fix star (s : string) : bool :=
         re_items_match rest s
         || match s with
            | EmptyString => false
            | String c s' => atom_accepts a c && star s'
            end) s
  end.

(** [re.fullmatch(pattern, name)] on that fragment. *)
Definition re_fullmatch (pattern name : string) : bool :=
  re_items_match (re_parse pattern) name.

End WeightDecay.

(** * Validation: [evaluation_fn] and the evaluation loop of [main] *)

Module Evaluation.

(** The numbers the host loop holds: the Python [int] the accumulators
    start from, and NumPy floating-point scalars, whose division by zero
    gives [nan] or [inf] with a warning instead of raising. *)
Inductive pynum : Type :=
| PyInt (z : Z)
| NpFloat (q : Q)
| NpNan
| NpInf.

(** [acc += np.sum(...)], the right operand a finite NumPy scalar. *)
Definition py_add (acc : pynum) (x : Q) : pynum :=
  match acc with
  | PyInt z => NpFloat (inject_Z z + x)
  | NpFloat q => NpFloat (q + x)
  | NpNan => NpNan
  | NpInf => NpInf
  end.

(** [a / b] *)
Definition py_div (a b : pynum) : result pynum :=
  match a, b with
  | PyInt x, PyInt y =>
      if y =? 0 then Raise ZeroDivisionError
      else Ok (NpFloat (inject_Z x / inject_Z y))
  | NpNan, _ | _, NpNan => Ok NpNan
  | NpInf, NpInf => Ok NpNan
  | NpInf, _ => Ok NpInf
  | _, NpInf => Ok (NpFloat 0)
  | PyInt x, NpFloat y =>
      if Qeq_bool y 0 then Ok (if x =? 0 then NpNan else NpInf)
      else Ok (NpFloat (inject_Z x / y))
  | NpFloat x, PyInt y =>
      if y =? 0 then Ok (if Qeq_bool x 0 then NpNan else NpInf)
      else Ok (NpFloat (x / inject_Z y))
  | NpFloat x, NpFloat y =>
      if Qeq_bool y 0 then Ok (if Qeq_bool x 0 then NpNan else NpInf)
      else Ok (NpFloat (x / y))
  end.

Definition qmax (a b : Q) : Q := if Qle_bool a b then b else a.

(** [labels.max(axis=1)] for one entry. *)
Definition list_max (l : list Q) : Q :=
  match l with
  | [] => 0%Q
  | x :: rest => fold_left qmax rest x
  end.

(** [jnp.argmax(logits, axis=1)] for one entry: the first index of the
    largest logit. *)
Fixpoint argmax_from (best_i : nat) (best : Q) (i : nat) (l : list Q) : nat :=
  match l with
  | [] => best_i
  | x :: rest =>
      if Qle_bool x best then argmax_from best_i best (S i) rest
      else argmax_from i x (S i) rest
  end.

Definition argmax (l : list Q) : nat :=
  match l with
  | [] => O
  | x :: rest => argmax_from 0 x 1 rest
  end.

(** [jax.lax.psum(x, axis_name='batch')]: the entry-wise sum of the
    replicas' arrays, which all have the shape of the per-device batch. *)
Fixpoint psum (per_device : list (list Q)) : list Q :=
  match per_device with
  | [] => []
  | [v] => v
  | v :: rest => map (fun ab => (fst ab + snd ab)%Q) (combine v (psum rest))
  end.

Section Eval.

Variable Img : Type.

(** One entry of an evaluation batch. *)
Record Example : Type := {
  image : Img;
  labels : list Q;
  mask : Q
}.

(** [model.apply(variable_dict, images, train=False)] on one image, with
    the parameters and states of the moment, and the loss of
    [config.loss] with [reduction=False]: both come from libraries. *)
Variable model_logits : Img -> list Q.
Variable loss_fn : list Q -> list Q -> Q.

(** "Ignore the entries with all zero labels for evaluation." *)
Definition eval_mask (e : Example) : Q := (mask e * list_max (labels e))%Q.

(** "Extracts the label at the highest logit index for each image." *)
Definition top1_correct (e : Example) : Q :=
  nth (argmax (model_logits (image e))) (labels e) 0%Q.

Definition example_loss (e : Example) : Q :=
  loss_fn (model_logits (image e)) (labels e).

(** [evaluation_fn] on the replicas' batches: what every replica returns
    after the three [psum]s, [(ncorrect, loss, n)]. *)
Definition evaluation_fn (batch : list (list Example))
    : list Q * list Q * list Q :=
  let ncorrect :=
    psum (map (map (fun e => (top1_correct e * eval_mask e)%Q)) batch) in
  let loss :=
    psum (map (map (fun e => (example_loss e * eval_mask e)%Q)) batch) in
  let n := psum (map (map eval_mask) batch) in
  (ncorrect, loss, n).

(** The body of [for _, batch in zip(range(val_steps), val_iter)]. *)
Definition eval_batch (acc : pynum * pynum * pynum) (batch : list (list Example))
    : pynum * pynum * pynum :=
  let '(ncorrect, loss, nseen) := acc in
  let '(batch_ncorrect, batch_losses, batch_n) := evaluation_fn batch in
  (py_add ncorrect (Qsum batch_ncorrect),
   py_add loss (Qsum batch_losses),
   py_add nseen (Qsum batch_n)).

(** [val_steps = int(np.ceil(nval_img / batch_size_eval))], which raises
    for a batch size of zero and for a quotient too large for a float. *)
Definition get_val_steps (nval_img batch_size_eval : Z) : result Z :=
  quotient <- PyFloat.int_truediv nval_img batch_size_eval ;;
  PyFloat.ceil_to_int quotient.

(** The number of steps when that line does not raise. *)
Definition val_steps_for (nval_img batch_size_eval : Z) : Z :=
  match get_val_steps nval_img batch_size_eval with
  | Ok val_steps => val_steps
  | Raise _ => 0
  end.

(** The evaluation of one validation split: [(prec@1, loss)] as measured. *)
Definition evaluate_split (val_steps : Z) (val_iter : list (list (list Example)))
    : result (pynum * pynum) :=
  let '(ncorrect, loss, nseen) :=
    fold_left eval_batch (firstn (Z.to_nat val_steps) val_iter)
              (PyInt 0, PyInt 0, PyInt 0) in
  val_loss <- py_div loss nseen ;;
  prec <- py_div ncorrect nseen ;;
  Ok (prec, val_loss).

(** *** The entries that count *)

(** The entries evaluated: those of the first [val_steps] batches, over all
    replicas. *)
Definition entries (val_steps : Z) (val_iter : list (list (list Example)))
    : list Example :=
  concat (concat (firstn (Z.to_nat val_steps) val_iter)).

(** An entry is valid when its mask is set and its labels are not all zero. *)
Definition is_valid (e : Example) : bool :=
  Qeq_bool (mask e) 1 && existsb (fun y => negb (Qeq_bool y 0)) (labels e).

(** The label at the largest logit is set. *)
Definition is_correct (e : Example) : bool :=
  Qeq_bool (nth (argmax (model_logits (image e))) (labels e) 0%Q) 1.

Definition count (f : Example -> bool) (l : list Example) : Q :=
  inject_Z (Z.of_nat (length (filter f l))).

(** Masks and labels are zero or one, and there is at least one class. *)
Definition binary (e : Example) : Prop :=
  ((mask e == 0)%Q \/ (mask e == 1)%Q) /\
  labels e <> [] /\
  Forall (fun y => (y == 0)%Q \/ (y == 1)%Q) (labels e).

(** Every replica holds a per-device batch of the same size. *)
Definition rectangular (batch : list (list Example)) : Prop :=
  exists size, Forall (fun b => length b = size) batch.

End Eval.

Arguments image {Img} e.
Arguments labels {Img} e.
Arguments mask {Img} e.
Arguments eval_mask {Img} e.
Arguments top1_correct {Img} model_logits e.
Arguments example_loss {Img} model_logits loss_fn e.
Arguments evaluation_fn {Img} model_logits loss_fn batch.
Arguments eval_batch {Img} model_logits loss_fn acc batch.
Arguments evaluate_split {Img} model_logits loss_fn val_steps val_iter.
Arguments entries {Img} val_steps val_iter.
Arguments is_valid {Img} e.
Arguments is_correct {Img} model_logits e.
Arguments count {Img} f l.
Arguments binary {Img} e.
Arguments rectangular {Img} batch.

End Evaluation.

(** * Sample runs *)

Module Scenario.

(** A configuration in the style of the JFT runs, with the fields that
    drive start-up left open. *)
Definition config_with (checkpoint_steps keep_checkpoint_steps : option Z)
    (batch_size : Z) (resume model_init : option string) : Config :=
  {| checkpoint_steps := checkpoint_steps;
     keep_checkpoint_steps := keep_checkpoint_steps;
     checkpoint_timeout := None;
     batch_size := batch_size;
     batch_size_eval := None;
     num_epochs := None;
     total_steps := Some 10000;
     resume := resume;
     model_init := model_init;
     grad_accum_steps := None;
     weight_decay := WdNumber (1 # 10);
     weight_decay_decouple := Some true;
     lr_base := 1 # 1000 |}.

(** Eight devices, the work unit directory [/work/out], and a file system
    holding exactly the [files]; a checkpoint found there is at step 500. *)
Definition env_with (files : list string) : Env :=
  {| output_dir := "/work/out";
     device_count := 8;
     gfile_exists := fun p => existsb (String.eqb p) files;
     ntrain_img := 300000000;
     fillin := fun s => s;
     load_checkpoint_step :=
       fun p => if existsb (String.eqb p) files then Ok 500 else Raise IOError |}.

(** [u.itstime] with its defaults: every [every_n_steps] steps, at the
    first step and at the last one. *)
Definition itstime (step : Z) (every_n_steps : option Z) (total_steps : Z) : bool :=
  match every_n_steps with
  | Some n =>
      negb (n =? 0)
      && ((step mod n =? 0) || (step =? total_steps) || (step =? 1))
  | None => false
  end.



(** A fresh run of three steps that checkpoints at every step. *)
Definition every_step_config : Config := config_with (Some 1) None 4096 None None.

(** Two rules that overlap on the kernels of the head, [lr.base = 1/1000]
    and decoupled weight decay. *)
Definition two_rule_config : Config :=
  {| checkpoint_steps := Some 1000;
     keep_checkpoint_steps := None;
     checkpoint_timeout := None;
     batch_size := 4096;
     batch_size_eval := None;
     num_epochs := None;
     total_steps := Some 10000;
     resume := None;
     model_init := None;
     grad_accum_steps := None;
     weight_decay := WdRules [(".*kernel.*"%string, 1 # 10); ("head/.*"%string, 1 # 5)];
     weight_decay_decouple := Some true;
     lr_base := 1 # 1000 |}.

(** The same run with [checkpoint_timeout] set to 5. *)
Definition patient_config : Config :=
  {| checkpoint_steps := Some 1;
     keep_checkpoint_steps := None;
     checkpoint_timeout := Some 5;
     batch_size := 4096;
     batch_size_eval := None;
     num_epochs := None;
     total_steps := Some 3;
     resume := None;
     model_init := None;
     grad_accum_steps := None;
     weight_decay := WdNumber (1 # 10);
     weight_decay_decouple := Some true;
     lr_base := 1 # 1000 |}.

Definition three_step_setup : Main.TrainSetup :=
  {| Main.setup_save_path := Some "/work/out/checkpoint.npz"%string;
     Main.setup_total_steps := 3;
     Main.setup_init := Main.TrainFromScratch;
     Main.setup_first_step := 0 |}.

(** One evaluation batch on two replicas with five entries each and three
    classes.  The images stand for their logits.  The last entry of the
    first replica has no label set and the last entry of the second one is
    padding; of the eight other entries six have the label set at the
    largest logit. *)
Definition entry (logits labels : list Q) (mask : Q) : Evaluation.Example (list Q) :=
  {| Evaluation.image := logits; Evaluation.labels := labels; Evaluation.mask := mask |}.

Definition eval_batch_10 : list (list (Evaluation.Example (list Q))) :=
  [ [ entry [2; 1; 0] [1; 0; 0] 1;
      entry [0; 3; 1] [0; 1; 0] 1;
      entry [1; 0; 2] [0; 0; 1] 1;
      entry [1; 2; 0] [1; 0; 0] 1;
      entry [0; 1; 0] [0; 0; 0] 1 ];
    [ entry [5; 1; 1] [1; 0; 0] 1;
      entry [0; 0; 4] [0; 0; 1] 1;
      entry [1; 1; 0] [1; 0; 0] 1;
      entry [0; 2; 1] [0; 0; 1] 1;
      entry [3; 0; 0] [1; 0; 0] 0 ] ]%Q.

(** A batch in which every entry is masked out. *)
Definition eval_batch_masked : list (list (Evaluation.Example (list Q))) :=
  [ [ entry [2; 1; 0] [1; 0; 0] 0; entry [0; 3; 1] [0; 0; 0] 1 ];
    [ entry [5; 1; 1] [0; 0; 0] 0; entry [0; 0; 4] [0; 0; 1] 0 ] ]%Q.

Definition squared_loss (logits labels : list Q) : Q :=
  Qsum (map (fun p => ((fst p - snd p) * (fst p - snd p))%Q) (combine logits labels)).

End Scenario.

(** * The Gaussian-process layer settings: [get_gp_kwargs] *)

Module GpKwargs.

(** [config.get('gp_layer', {})]: every key may be absent. *)
Record GpConfig : Type := {
  normalize_input : option bool;
  random_feature_stddev : option Q;
  random_feature_scale : option Q;
  covmat_momentum : option Q
}.

(** The keyword arguments assembled for the layer: [normalize_input],
    [hidden_kwargs] with its [feature_scale] and the standard deviation
    given to the kernel initializer, and [covmat_kwargs] with its
    [momentum]. *)
Record GpLayerKwargs : Type := {
  kw_normalize_input : bool;
  kw_feature_scale : option Q;
  kw_kernel_stddev : Q;
  kw_momentum : Q
}.

Definition get_or {A : Type} (x : option A) (default : A) : A :=
  match x with
  | Some a => a
  | None => default
  end.

Definition get_gp_kwargs (gp_config : GpConfig) : GpLayerKwargs :=
  let normalize_input := get_or (normalize_input gp_config) true in
  let kernel_stddev := get_or (random_feature_stddev gp_config) 1%Q in
  let feature_scale := get_or (random_feature_scale gp_config) (-1)%Q in
  let covmat_momentum := get_or (covmat_momentum gp_config) (999 # 1000)%Q in
  (* feature_scale = None if feature_scale < 0. else feature_scale *)
  let feature_scale :=
    if negb (Qle_bool 0 feature_scale) then None else Some feature_scale in
  {| kw_normalize_input := normalize_input;
     kw_feature_scale := feature_scale;
     kw_kernel_stddev := kernel_stddev;
     kw_momentum := covmat_momentum |}.

End GpKwargs.

(** * The gradient norm and its clipping in [update_fn] *)

Module GradClip.

(** What a run of the modelled lines ends with: a value, or the
    [UnboundLocalError] of a local variable read before it was bound. *)
Inductive bound (A : Type) : Type :=
| Bound (a : A)
| UnboundLocalError (name : string).

Arguments Bound {A} a.
Arguments UnboundLocalError {A} name.

(** [jnp.vdot(p, p)] for a real array. *)
Definition vdot (p q : list Q) : Q :=
  Qsum (map (fun ab => (fst ab * snd ab)%Q) (combine p q)).

(** [sum([jnp.vdot(p, p) for p in grads])] over the leaves of the gradient. *)
Definition sum_squares (grads : list (list Q)) : Q :=
  Qsum (map (fun p => vdot p p) grads).

Section Clip.

(** [jnp.sqrt], of which the properties below use the value at the sum of
    squares only. *)
Variable sqrt : Q -> Q.

(** Lines 362-373: the norm is measured when there is no accumulation
    ([config.get('grad_accum_steps', 1) == 1]) or when clipping is
    configured, and the gradient is resized with
    [g_factor = jnp.minimum(1.0, config.grad_clip_norm / l2_g)].  Returns
    the measurement [l2_grads], when made, and the gradient handed to the
    optimizer. *)
Definition measure_and_clip (cfg : Config) (grad_clip_norm : option Q)
    (g : list (list Q)) : bound (option Q * list (list Q)) :=
  let l2_g :=
    if (match grad_accum_steps cfg with Some n => n | None => 1 end =? 1)
       || truthyQ grad_clip_norm
    then Some (sqrt (sum_squares g))
    else None in
  if truthyQ grad_clip_norm then
    match l2_g with
    | Some norm =>
        let g_factor :=
          Qmin 1 (match grad_clip_norm with Some c => c | None => 0 end / norm) in
        Bound (l2_g, map (map (fun p => (g_factor * p)%Q)) g)
    | None => UnboundLocalError "l2_g"
    end
  else Bound (l2_g, g).

End Clip.

End GradClip.

(** * What each iteration of the training loop is given *)

Module LoopInputs.

(** One more save is about to be started: the loop is inside the wait. *)
Definition pending (c : TrainLoop.control) : Z :=
  match c with
  | TrainLoop.Waiting _ => 1
  | _ => 0
  end.

(** [range(lo, hi)] *)
Definition py_range (lo hi : Z) : list Z :=
  map (fun i => lo + Z.of_nat i) (seq 0 (Z.to_nat (hi - lo))).

(** [zip(a, b, c)] *)
Fixpoint zip3 {A B C : Type} (a : list A) (b : list B) (c : list C)
    : list (A * B * C) :=
  match a, b, c with
  | x :: a', y :: b', z :: c' => (x, y, z) :: zip3 a' b' c'
  | _, _, _ => []
  end.

Section Inputs.

Variable Batch : Type.

(** The learning-rate schedule [lr_fn] and [u.prefetch_scalar], a helper
    the script calls and does not define. *)
Variable lr_fn : Z -> Q.
Variable prefetch_scalar : list Q -> list Q.

(** [lr_iter = u.prefetch_scalar(map(lr_fn, range(first_step, total_steps)), ...)] *)
Definition lr_iter (first_step total_steps : Z) : list Q :=
  prefetch_scalar (map lr_fn (py_range first_step total_steps)).

(** [zip(range(first_step + 1, total_steps + 1), train_iter, lr_iter)]:
    the step number, the batch and the learning rate of every iteration. *)
Definition loop_inputs (first_step total_steps : Z) (train_iter : list Batch)
    : list (Z * Batch * Q) :=
  zip3 (py_range (first_step + 1) (total_steps + 1)) train_iter
       (lr_iter first_step total_steps).

End Inputs.

Arguments loop_inputs {Batch} lr_fn prefetch_scalar first_step total_steps train_iter.

End LoopInputs.

(** * The dropout ensemble evaluator: [diabetic_retinopathy_detection/dropoutensemble.py] *)

Module Ensemble.

(** How a run of the modelled lines can end early: an exception of [main]
    itself, [next] on an exhausted iterator, [tf.concat] of an empty list,
    or a file that is not there. *)
Inductive failure : Type :=
| Builtin (e : exn)
| StopIteration
| ConcatOfNothing
| NotFound (path : string).

Inductive outcome (A : Type) : Type :=
| Returned (a : A)
| Failed (e : failure).

Arguments Returned {A} a.
Arguments Failed {A} e.

Definition and_then {A B : Type} (m : outcome A) (k : A -> outcome B) : outcome B :=
  match m with
  | Returned a => k a
  | Failed e => Failed e
  end.

(** The flags the modelled lines read. *)
Record Flags : Type := {
  output_dir : string;
  eval_batch_size : Z;
  num_cores : Z
}.

(** Lines 78-93: the accelerator check, [eval_batch_size] and
    [steps_per_eval = num_examples // eval_batch_size]. *)
Definition eval_setup (flags : Flags) (num_examples : Z) : outcome (Z * Z) :=
  if 1 <? num_cores flags then
    Failed (Builtin (ValueError "Only a single accelerator is currently supported."))
  else
    let eval_batch_size := eval_batch_size flags * num_cores flags in
    if eval_batch_size =? 0 then Failed (Builtin ZeroDivisionError)
    else Returned (eval_batch_size, num_examples / eval_batch_size).

(** [os.path.join(FLAGS.output_dir, f'{member}.npy')] *)
Definition member_filename (flags : Flags) (member : nat) : string :=
  Main.path_join (output_dir flags)
    (NilEmpty.string_of_uint (Nat.to_uint member) ++ ".npy").

(** The prediction files: what [tf.io.gfile.exists] and [np.load] see. *)
Definition Files : Type := string -> option (list Q).

(** [np.save(f, logits.numpy())] on a file opened for writing. *)
Definition save (files : Files) (path : string) (logits : list Q) : Files :=
  fun p => if String.eqb p path then Some logits else files p.

Section Predict.

Variable Img : Type.

(** One batch of the test set: [inputs['features']] and [inputs['labels']]. *)
Record Batch : Type := {
  features : list Img;
  labels : list Q
}.

(** A loaded Keras model, called with [training=False]: one logit per image
    of the batch. *)
Definition Model : Type := list Img -> list Q.

(** Lines 120-134: [steps_per_eval] calls of [next] and of the model, and
    the concatenation of the outputs. *)
Definition predict (model : Model) (steps_per_eval : Z) (dataset_test : list Batch)
    : outcome (list Q) :=
  if Z.of_nat (length dataset_test) <? steps_per_eval then Failed StopIteration
  else
    match map (fun inputs => model (features inputs))
              (firstn (Z.to_nat steps_per_eval) dataset_test) with
    | [] => Failed ConcatOfNothing
    | logits => Returned (concat logits)
    end.

(** The body of the loop over the members: the predictions are computed
    and saved unless the member's file exists. *)
Definition write_member (flags : Flags) (steps_per_eval : Z)
    (dataset_test : list Batch) (member : nat) (model : Model) (files : Files)
    : outcome Files :=
  let filename := member_filename flags member in
  match files filename with
  | Some _ => Returned files
  | None =>
      and_then (predict model steps_per_eval dataset_test)
               (fun logits => Returned (save files filename logits))
  end.

(** [for member, ensemble_filename in enumerate(ensemble_filenames)], from
    the member numbered [member] on. *)
Fixpoint write_predictions_from (flags : Flags) (steps_per_eval : Z)
    (dataset_test : list Batch) (member : nat) (models : list Model)
    (files : Files) : outcome Files :=
  match models with
  | [] => Returned files
  | model :: rest =>
      and_then (write_member flags steps_per_eval dataset_test member model files)
               (write_predictions_from flags steps_per_eval dataset_test
                  (S member) rest)
  end.

Definition write_predictions (flags : Flags) (steps_per_eval : Z)
    (dataset_test : list Batch) (models : list Model) (files : Files)
    : outcome Files :=
  write_predictions_from flags steps_per_eval dataset_test 0 models files.

(** Lines 159-164: the members' files are read back, in order. *)
Fixpoint load_from (flags : Flags) (files : Files) (member count : nat)
    : outcome (list (list Q)) :=
  match count with
  | O => Returned []
  | S c =>
      match files (member_filename flags member) with
      | Some logits =>
          and_then (load_from flags files (S member) c)
                   (fun rest => Returned (logits :: rest))
      | None => Failed (NotFound (member_filename flags member))
      end
  end.

Definition load_predictions (flags : Flags) (files : Files) (ensemble_size : nat)
    : outcome (list (list Q)) :=
  load_from flags files 0 ensemble_size.

End Predict.

(** An index of a slice, brought inside [0, len]. *)
Definition slice_index (len i : Z) : Z :=
  if i <? 0 then Z.max (i + len) 0 else Z.min i len.

(** [xs[lo:hi]] *)
Definition py_slice {A : Type} (xs : list A) (lo hi : Z) : list A :=
  let len := Z.of_nat (length xs) in
  let a := slice_index len lo in
  let b := slice_index len hi in
  firstn (Z.to_nat (b - a)) (skipn (Z.to_nat a) xs).

(** [logits_dataset[:, step * eval_batch_size:(step + 1) * eval_batch_size]]:
    one row per member. *)
Definition step_logits (logits_dataset : list (list Q)) (step eval_batch_size : Z)
    : list (list Q) :=
  map (fun row => py_slice row (step * eval_batch_size) ((step + 1) * eval_batch_size))
      logits_dataset.

Arguments features {Img} b.
Arguments labels {Img} b.
Arguments predict {Img} model steps_per_eval dataset_test.
Arguments write_member {Img} flags steps_per_eval dataset_test member model files.
Arguments write_predictions_from {Img} flags steps_per_eval dataset_test member
  models files.
Arguments write_predictions {Img} flags steps_per_eval dataset_test models files.

End Ensemble.

(** * More sample data *)

Module Samples.

(** A square root for the sums of squares it is asked about in the sample
    runs: exact at 25 and 4, and rounded up to 3/2 at 2. *)
Definition sqrt_table (x : Q) : Q :=
  if Qeq_bool x 25 then 5
  else if Qeq_bool x 4 then 2
  else if Qeq_bool x 2 then 3 # 2
  else 0.

(** Two members, a doubling model and a shifting model, and a test set of
    two batches of two images. *)
Definition double_model : Ensemble.Model Q := map (fun x => (2 * x)%Q).

Definition shift_model : Ensemble.Model Q := map (fun x => (x + 1)%Q).

Definition two_batches : list (Ensemble.Batch Q) :=
  [ {| Ensemble.features := [1; 2]%Q; Ensemble.labels := [0; 1]%Q |};
    {| Ensemble.features := [3; 4]%Q; Ensemble.labels := [1; 1]%Q |} ].

Definition tmp_flags : Ensemble.Flags :=
  {| Ensemble.output_dir := "/tmp/out";
     Ensemble.eval_batch_size := 2;
     Ensemble.num_cores := 1 |}.

(** An output directory that holds nothing, and one that already holds
    predictions for member 1. *)
Definition no_files : Ensemble.Files := fun _ => None.

Definition stale_files : Ensemble.Files :=
  Ensemble.save no_files "/tmp/out/1.npy" [9; 9; 9; 9]%Q.

End Samples.

(** * Properties *)

(** ** Rational sums *)

Lemma Qsum_app (xs ys : list Q) : (Qsum (xs ++ ys) == Qsum xs + Qsum ys)%Q.
Proof.
  induction xs as [|x xs IH]; simpl.
  - ring.
  - rewrite IH. ring.
Qed.

Lemma Qsum_map_ext {A : Type} (f g : A -> Q) (l : list A) :
  (forall a, In a l -> (f a == g a)%Q) ->
  (Qsum (map f l) == Qsum (map g l))%Q.
Proof.
  induction l as [|a l IH]; intros H; simpl.
  - reflexivity.
  - rewrite (H a (or_introl eq_refl)), IH; [reflexivity|].
    intros b Hb. apply H. now right.
Qed.

Lemma Qsum_map_scale {A : Type} (f : A -> Q) (c : Q) (l : list A) :
  (Qsum (map (fun a => f a * c) l) == Qsum (map f l) * c)%Q.
Proof.
  induction l as [|a l IH]; simpl.
  - ring.
  - rewrite IH. ring.
Qed.

Lemma Qsum_map_shift (f : nat -> Q) (n : nat) :
  Qsum (map f (seq 1 n)) = Qsum (map (fun i => f (S i)) (seq 0 n)).
Proof.
  rewrite <- seq_shift, map_map. reflexivity.
Qed.

Lemma Qsum_seq_snoc (f : nat -> Q) (n : nat) :
  (Qsum (map f (seq 0 (S n))) == Qsum (map f (seq 0 n)) + f n)%Q.
Proof.
  rewrite seq_S, map_app, Qsum_app. simpl. ring.
Qed.

(** ** The gradient accumulator *)

Module AccumulatorFacts.
Import Accumulator.

Section Facts.

Context {Params States Img Lbl Leaf : Type}.
Variable loss_and_grad_fn :
  Params -> States -> list Img -> list Lbl -> (Q * States) * Grad Leaf.

Abbreviation accumulate := (accumulate_gradient_with_states loss_and_grad_fn).
Abbreviation body := (acc_grad_and_loss loss_and_grad_fn).
Abbreviation threaded := (thread_states loss_and_grad_fn).
Abbreviation call := (sub_call loss_and_grad_fn).
Abbreviation loss_of := (sub_loss loss_and_grad_fn).
Abbreviation grad_of := (sub_grad loss_and_grad_fn).
Abbreviation inv := (loop_inv loss_and_grad_fn).

Lemma sub_batch_skip {A : Type} (xs : list A) (k i : nat) :
  sub_batch xs k (S i) = sub_batch (skipn k xs) k i.
Proof.
  unfold sub_batch. rewrite skipn_skipn.
  now replace (S i * k)%nat with (i * k + k)%nat by lia.
Qed.

Lemma sub_batch_length {A : Type} (xs : list A) (n k i : nat) :
  length xs = (n * k)%nat -> (i < n)%nat -> length (sub_batch xs k i) = k.
Proof.
  intros Hlen Hi. unfold sub_batch.
  rewrite length_firstn, length_skipn, Hlen. nia.
Qed.

Lemma sub_batch_combine {A B : Type} (xs : list A) (ys : list B) (k i : nat) :
  combine (sub_batch xs k i) (sub_batch ys k i) = sub_batch (combine xs ys) k i.
Proof.
  unfold sub_batch. rewrite <- combine_firstn. f_equal.
  generalize (i * k)%nat as m. clear.
  intros m. revert xs ys.
  induction m as [|m IH]; intros xs ys; [reflexivity|].
  destruct xs as [|x xs]; [reflexivity|].
  destruct ys as [|y ys]; simpl.
  - now rewrite combine_nil.
  - apply IH.
Qed.

Lemma sub_batch_map {A B : Type} (f : A -> B) (xs : list A) (k i : nat) :
  map f (sub_batch xs k i) = sub_batch (map f xs) k i.
Proof.
  unfold sub_batch. now rewrite <- firstn_map, <- skipn_map.
Qed.

(** Inside the batch no clamping happens: the slice taken by the loop body
    is the [i]-th sub-batch. *)
Lemma dynamic_slice_sub_batch {A : Type} (xs : list A) (n k i : nat) :
  length xs = (n * k)%nat -> (i < n)%nat ->
  dynamic_slice xs (Z.of_nat i * Z.of_nat k) (Z.of_nat k) = sub_batch xs k i.
Proof.
  intros Hlen Hi. unfold dynamic_slice, sub_batch.
  replace (Z.of_nat i * Z.of_nat k <? 0) with false
    by (symmetry; apply Z.ltb_ge; lia).
  rewrite Hlen, Nat2Z.id.
  replace (Z.to_nat _) with (i * k)%nat; [reflexivity|].
  rewrite Z.min_l by nia. rewrite Z.max_r by nia. nia.
Qed.

Lemma thread_states_snoc (params : Params) (images : list Img) (labels : list Lbl)
    (k start count : nat) (s : States) :
  threaded params images labels k start (S count) s =
  snd (fst (call params images labels k
              (threaded params images labels k start count s) (start + count)%nat)).
Proof.
  revert start s.
  induction count as [|c IH]; intros start s.
  - simpl. now rewrite Nat.add_0_r.
  - change (threaded params images labels k start (S (S c)) s)
      with (threaded params images labels k (S start) (S c)
              (snd (fst (call params images labels k s start)))).
    rewrite IH. simpl. now rewrite Nat.add_succ_r.
Qed.

Lemma body_preserves_inv (params : Params) (states : States) (images : list Img)
    (labels : list Lbl) (n k m : nat) (acc : Q * States * Grad Leaf) :
  length images = (n * k)%nat -> length labels = length images -> (m < n)%nat ->
  inv params states images labels k m acc ->
  inv params states images labels k (S m)
    (body params images labels (Z.of_nat k) (Z.of_nat m) acc).
Proof.
  intros Hlen Hlab Hm. destruct acc as [[l s] g]. intros (Hl & Hs & Hg).
  unfold acc_grad_and_loss.
  rewrite (dynamic_slice_sub_batch images n k m Hlen Hm).
  rewrite (dynamic_slice_sub_batch labels n k m) by congruence || assumption.
  fold (call params images labels k s m).
  destruct (call params images labels k s m) as [[li si] gi] eqn:Hcall.
  assert (Hcall' : call params images labels k
                     (state_before loss_and_grad_fn params images labels k states m) m
                   = ((li, si), gi)).
  { unfold state_before. rewrite <- Hs. exact Hcall. }
  repeat split.
  - rewrite Qsum_seq_snoc, <- Hl. unfold sub_loss. rewrite Hcall'. reflexivity.
  - rewrite thread_states_snoc, <- Hs. simpl. now rewrite Hcall.
  - intros leaf. rewrite Qsum_seq_snoc, <- Hg. unfold tree_multimap, sub_grad.
    rewrite Hcall'. reflexivity.
Qed.

Lemma fori_loop_from_inv (params : Params) (states : States) (images : list Img)
    (labels : list Lbl) (n k : nat) :
  length images = (n * k)%nat -> length labels = length images ->
  forall count m acc,
    (m + count <= n)%nat ->
    inv params states images labels k m acc ->
    inv params states images labels k (m + count)
      (fori_loop_from (body params images labels (Z.of_nat k)) (Z.of_nat m) count acc).
Proof.
  intros Hlen Hlab.
  induction count as [|c IH]; intros m acc Hle Hinv.
  - simpl. now rewrite Nat.add_0_r.
  - simpl. replace (Z.of_nat m + 1) with (Z.of_nat (S m)) by lia.
    replace (m + S c)%nat with (S m + c)%nat by lia.
    apply IH; [lia|].
    apply (body_preserves_inv params states images labels n); auto; lia.
Qed.

Lemma Qsum_sub_batches (k : nat) :
  forall (n : nat) (ys : list Q),
    length ys = (n * k)%nat ->
    (Qsum (map (fun i => Qsum (sub_batch ys k i)) (seq 0 n)) == Qsum ys)%Q.
Proof.
  induction n as [|n IH]; intros ys Hlen.
  - destruct ys; [reflexivity | discriminate].
  - cbn [seq map Qsum fold_right]. fold (Qsum (map (fun i => Qsum (sub_batch ys k i)) (seq 1 n))).
    rewrite Qsum_map_shift.
    rewrite (Qsum_map_ext _ (fun i => Qsum (sub_batch (skipn k ys) k i)))
      by (intros i _; now rewrite sub_batch_skip).
    rewrite IH by (rewrite length_skipn; lia).
    unfold sub_batch. cbn [Nat.mul skipn].
    rewrite <- (firstn_skipn k ys) at 3. now rewrite Qsum_app.
Qed.

(** The mean of the means of [n] equal sub-batches is the mean of the batch. *)
Lemma mean_of_sub_batch_means (n k : nat) (ys : list Q) :
  (0 < n)%nat -> (0 < k)%nat -> length ys = (n * k)%nat ->
  (Qsum (map (fun i => Qmean (sub_batch ys k i)) (seq 0 n)) / inject_Z (Z.of_nat n)
   == Qmean ys)%Q.
Proof.
  intros Hn Hk Hlen.
  rewrite (Qsum_map_ext _ (fun i => (Qsum (sub_batch ys k i) * / inject_Z (Z.of_nat k))%Q)).
  2:{ intros i Hi. apply in_seq in Hi. unfold Qmean.
      rewrite (sub_batch_length ys n k i Hlen) by lia. reflexivity. }
  rewrite Qsum_map_scale, (Qsum_sub_batches k n ys Hlen).
  unfold Qmean. rewrite Hlen, Nat2Z.inj_mul, inject_Z_mult.
  field. split.
  - change 0%Q with (inject_Z 0). rewrite inject_Z_injective. lia.
  - change 0%Q with (inject_Z 0). rewrite inject_Z_injective. lia.
Qed.

(** The shape of a successful accumulation with factor [n > 1]. *)
Lemma accumulate_unfold (params : Params) (states : States) (images : list Img)
    (labels : list Lbl) (n : Z) :
  1 < n ->
  length labels = length images ->
  Z.of_nat (length images) mod n = 0 ->
  let k := Z.to_nat (Z.of_nat (length images) / n) in
  exists (l : Q) (g : Grad Leaf),
    accumulate params states images labels (Some n)
    = Ok (((l / inject_Z n)%Q,
           threaded params images labels k 0 (Z.to_nat n) states),
          tree_map (fun x => (x / inject_Z n)%Q) g) /\
    inv params states images labels k (Z.to_nat n)
      (l, threaded params images labels k 0 (Z.to_nat n) states, g).
Proof.
  intros Hn Hlab Hmod k.
  assert (Hq : 0 <= Z.of_nat (length images) / n) by (apply Z.div_pos; lia).
  assert (Hk : Z.of_nat k = Z.of_nat (length images) / n) by (unfold k; lia).
  assert (Hlen : length images = (Z.to_nat n * k)%nat).
  { pose proof (Z.div_exact (Z.of_nat (length images)) n ltac:(lia)) as [_ He].
    specialize (He Hmod). nia. }
  unfold accumulate_gradient_with_states.
  assert (Hguard : truthyZ (Some n) && (1 <? n) = true).
  { simpl. apply andb_true_intro. split.
    - apply negb_true_iff, Z.eqb_neq. lia.
    - apply Z.ltb_lt. exact Hn. }
  rewrite Hguard.
  unfold py_assert. rewrite Hmod. cbn [Z.eqb bind].
  rewrite <- Hk. unfold py_prefix. rewrite Nat2Z.id.
  change (firstn k images) with (sub_batch images k 0).
  change (firstn k labels) with (sub_batch labels k 0).
  fold (call params images labels k states 0%nat).
  destruct (call params images labels k states 0%nat) as [[l0 s0] g0] eqn:Hcall.
  assert (Hinv1 : inv params states images labels k 1 (l0, s0, g0)).
  { unfold loop_inv, sub_loss, sub_grad, state_before. simpl. rewrite Hcall. simpl.
    repeat split; intros; ring. }
  unfold fori_loop.
  pose proof (fori_loop_from_inv params states images labels (Z.to_nat n) k
                Hlen Hlab (Z.to_nat (n - 1)) 1%nat (l0, s0, g0)
                ltac:(lia) Hinv1) as Hfin.
  change (Z.of_nat 1) with 1 in Hfin.
  replace (1 + Z.to_nat (n - 1))%nat with (Z.to_nat n) in Hfin by lia.
  destruct (fori_loop_from _ 1 (Z.to_nat (n - 1)) (l0, s0, g0)) as [[l s] g].
  exists l, g.
  destruct Hfin as (Hl & Hs & Hg). subst s.
  split; [reflexivity|].
  repeat split; assumption.
Qed.

(** With a factor that is absent, zero, one or negative the batch is passed
    through: one call on the full batch, nothing sliced, nothing checked. *)
Lemma accumulate_pass_through (params : Params) (states : States)
    (images : list Img) (labels : list Lbl) (accum_steps : option Z) :
  (forall n, accum_steps = Some n -> n <= 1) ->
  accumulate params states images labels accum_steps
  = Ok (loss_and_grad_fn params states images labels).
Proof.
  intros H. unfold accumulate_gradient_with_states.
  destruct accum_steps as [n|]; [|reflexivity].
  specialize (H n eq_refl).
  replace (1 <? n) with false by (symmetry; apply Z.ltb_ge; lia).
  now rewrite andb_false_r.
Qed.

(** A factor above one that does not divide the batch size trips the
    assertion. *)
Lemma accumulate_bad_accum_steps (params : Params) (states : States)
    (images : list Img) (labels : list Lbl) (n : Z) :
  1 < n ->
  Z.of_nat (length images) mod n <> 0 ->
  accumulate params states images labels (Some n)
  = Raise (AssertionError "Bad accum_steps for batch size").
Proof.
  intros Hn Hmod. unfold accumulate_gradient_with_states.
  assert (Hguard : truthyZ (Some n) && (1 <? n) = true).
  { simpl. apply andb_true_intro. split.
    - apply negb_true_iff, Z.eqb_neq. lia.
    - apply Z.ltb_lt. exact Hn. }
  rewrite Hguard. unfold py_assert.
  apply Z.eqb_neq in Hmod. rewrite Hmod. reflexivity.
Qed.

(** C8. With an accumulation factor [n > 1] that divides the batch, the
    auxiliary state is handed from each sub-batch call to the next, every
    call being made with the state its predecessor produced, and the state
    returned is the one produced by the call on the last sub-batch, as it
    is: only the loss and the gradient are divided by [n]. *)
Theorem accumulate_threads_states (params : Params) (states : States)
    (images : list Img) (labels : list Lbl) (n : Z) :
  1 < n ->
  length labels = length images ->
  Z.of_nat (length images) mod n = 0 ->
  let k := Z.to_nat (Z.of_nat (length images) / n) in
  let last := (Z.to_nat n - 1)%nat in
  exists (l : Q) (s : States) (g : Grad Leaf),
    accumulate params states images labels (Some n) = Ok ((l, s), g) /\
    s = threaded params images labels k 0 (Z.to_nat n) states /\
    s = snd (fst (call params images labels k
                    (state_before loss_and_grad_fn params images labels k states last)
                    last)) /\
    (l * inject_Z n
     == Qsum (map (fun i =>
                     fst (fst (call params images labels k
                                 (state_before loss_and_grad_fn params images labels
                                    k states i) i)))
                  (seq 0 (Z.to_nat n))))%Q.
Proof.
  intros Hn Hlab Hmod k last.
  destruct (accumulate_unfold params states images labels n Hn Hlab Hmod)
    as (l & g & Hacc & Hl & _ & _).
  fold k in Hacc, Hl.
  eexists _, _, _. split; [exact Hacc|]. split; [reflexivity|]. split.
  - replace (Z.to_nat n) with (S last) at 1 by (unfold last; lia).
    rewrite thread_states_snoc. reflexivity.
  - rewrite Hl. unfold sub_loss. field.
    change 0%Q with (inject_Z 0). rewrite inject_Z_injective. lia.
Qed.

(** C1 (amended). With a factor [n > 1] that divides the batch, the
    accumulator returns the sum of the [n] sub-batch losses and the sum of
    the [n] sub-batch gradients, each divided by [n]; every call is made with
    the same [params] and with the state its predecessor left.  When the
    loss-and-gradient computation is a per-example mean that ignores the
    auxiliary state, and the batch is not empty, this loss and gradient are
    those of one call on the full batch, which is what factor 1 returns. *)
Theorem accumulate_averages_sub_batches (params : Params) (states : States)
    (images : list Img) (labels : list Lbl) (n : Z)
    (ell : Img * Lbl -> Q) (dell : Img * Lbl -> Leaf -> Q) :
  1 < n ->
  length labels = length images ->
  Z.of_nat (length images) mod n = 0 ->
  let k := Z.to_nat (Z.of_nat (length images) / n) in
  exists (l : Q) (s : States) (g : Grad Leaf),
    accumulate params states images labels (Some n) = Ok ((l, s), g) /\
    (l == Qsum (map (loss_of params states images labels k) (seq 0 (Z.to_nat n)))
          / inject_Z n)%Q /\
    (forall leaf,
        (g leaf == Qsum (map (fun i => grad_of params states images labels k i leaf)
                             (seq 0 (Z.to_nat n)))
                   / inject_Z n)%Q) /\
    (per_example_mean loss_and_grad_fn params ell dell ->
     images <> [] ->
     exists (l1 : Q) (s1 : States) (g1 : Grad Leaf),
       accumulate params states images labels (Some 1) = Ok ((l1, s1), g1) /\
       (l == l1)%Q /\
       forall leaf, (g leaf == g1 leaf)%Q).
Proof.
  intros Hn Hlab Hmod k.
  destruct (accumulate_unfold params states images labels n Hn Hlab Hmod)
    as (l & g & Hacc & Hl & _ & Hg).
  fold k in Hacc, Hl, Hg.
  eexists _, _, _. split; [exact Hacc|].
  split; [now rewrite Hl|].
  split; [intros leaf; unfold tree_map; now rewrite Hg|].
  intros Hmean Hne.
  rewrite (accumulate_pass_through params states images labels (Some 1))
    by (intros m [= <-]; lia).
  destruct (loss_and_grad_fn params states images labels) as [[l1 s1] g1] eqn:Hfull.
  exists l1, s1, g1. split; [reflexivity|].
  assert (Hlen : length images = (Z.to_nat n * k)%nat).
  { pose proof (Z.div_exact (Z.of_nat (length images)) n ltac:(lia)) as [_ He].
    specialize (He Hmod).
    assert (0 <= Z.of_nat (length images) / n) by (apply Z.div_pos; lia).
    unfold k. nia. }
  assert (HN : (0 < Z.to_nat n)%nat) by lia.
  assert (Hk : (0 < k)%nat).
  { destruct k; [|lia]. destruct images; [congruence|]. simpl in Hlen. lia. }
  assert (Hn' : inject_Z n = inject_Z (Z.of_nat (Z.to_nat n))) by (f_equal; lia).
  assert (Hchunks : forall (f : Img * Lbl -> Q) (F : nat -> Q),
             (forall i, (i < Z.to_nat n)%nat ->
                        (F i == Qmean (map f (combine (sub_batch images k i)
                                                      (sub_batch labels k i))))%Q) ->
             (Qsum (map F (seq 0 (Z.to_nat n))) / inject_Z n
              == Qmean (map f (combine images labels)))%Q).
  { intros f F HF.
    rewrite (Qsum_map_ext F (fun i => Qmean (sub_batch (map f (combine images labels)) k i))).
    - rewrite Hn'. apply mean_of_sub_batch_means; auto.
      rewrite length_map, length_combine, Hlab, Nat.min_id. exact Hlen.
    - intros i Hi. apply in_seq in Hi.
      rewrite HF by lia. now rewrite sub_batch_combine, sub_batch_map. }
  split.
  - rewrite Hl, (Hchunks ell).
    + destruct (Hmean states images labels) as [Hm _].
      rewrite Hfull in Hm. simpl in Hm. now rewrite Hm.
    + intros i _. unfold sub_loss, sub_call. apply Hmean.
  - intros leaf. unfold tree_map. rewrite Hg, (Hchunks (fun z => dell z leaf)).
    + destruct (Hmean states images labels) as [_ Hm].
      rewrite Hfull in Hm. simpl in Hm. now rewrite Hm.
    + intros i _. unfold sub_grad, sub_call. apply Hmean.
Qed.

End Facts.

(** C8 on a batch of four examples split in two: the example counter kept
    in the state goes 0, 2, 4 and 4 is returned. *)
Lemma accumulate_threads_states_witness :
  1 < 2 /\
  length [2; 4; 6; 8]%Q = length [1; 2; 3; 4]%Q /\
  Z.of_nat (length [1; 2; 3; 4]%Q) mod 2 = 0 /\
  exists (l : Q) (g : Grad unit),
    accumulate_gradient_with_states squared_error_fn 1%Q 0%nat
      [1; 2; 3; 4]%Q [2; 4; 6; 8]%Q (Some 2)
    = Ok ((l, 4%nat), g).
Proof.
  split; [lia|]. split; [reflexivity|]. split; [reflexivity|].
  destruct (accumulate_threads_states squared_error_fn 1%Q 0%nat
              [1; 2; 3; 4]%Q [2; 4; 6; 8]%Q 2 ltac:(lia) eq_refl eq_refl)
    as (l & s & g & Hacc & Hs & _).
  exists l, g. rewrite Hacc, Hs. reflexivity.
Defined.

(** C1 (amended) on the mean squared error of a linear model: factor 2 and
    factor 1 agree on a batch of four examples. *)
Lemma accumulate_averages_sub_batches_witness :
  1 < 2 /\
  length [2; 4; 6; 9]%Q = length [1; 2; 3; 4]%Q /\
  Z.of_nat (length [1; 2; 3; 4]%Q) mod 2 = 0 /\
  exists (l : Q) (s : nat) (g : Grad unit) (l1 : Q) (s1 : nat) (g1 : Grad unit),
    accumulate_gradient_with_states squared_error_fn 1%Q 0%nat
      [1; 2; 3; 4]%Q [2; 4; 6; 9]%Q (Some 2) = Ok ((l, s), g) /\
    accumulate_gradient_with_states squared_error_fn 1%Q 0%nat
      [1; 2; 3; 4]%Q [2; 4; 6; 9]%Q (Some 1) = Ok ((l1, s1), g1) /\
    (l == l1)%Q /\
    forall leaf, (g leaf == g1 leaf)%Q.
Proof.
  split; [lia|]. split; [reflexivity|]. split; [reflexivity|].
  destruct (accumulate_averages_sub_batches squared_error_fn 1%Q 0%nat
              [1; 2; 3; 4]%Q [2; 4; 6; 9]%Q 2
              (fun z => ((1 * fst z - snd z) * (1 * fst z - snd z))%Q)
              (fun z _ => (2 * (1 * fst z - snd z) * fst z)%Q)
              ltac:(lia) eq_refl eq_refl)
    as (l & s & g & Hacc & _ & _ & Hfull).
  destruct Hfull as (l1 & s1 & g1 & Hone & Hl & Hg).
  - intros s0 imgs lbls. split; [|intros leaf]; apply Qeq_refl.
  - discriminate.
  - exists l, s, g, l1, s1, g1. repeat split; assumption.
Defined.

(** C1 as stated fails when the loss reads the auxiliary state.  On the
    batch [1; 3] with weight 1 and running mean 0, [centred_fn] has loss 2 on
    the full batch; with factor 2 the second sub-batch is centred with the
    mean 1 left by the first, and the accumulated loss is (1 + 2) / 2. *)
Lemma accumulate_differs_from_full_batch :
  1 < 2 /\
  Z.of_nat (length [1; 3]%Q) mod 2 = 0 /\
  returned_loss (accumulate_gradient_with_states centred_fn 1%Q 0%Q
                   [1; 3]%Q [0; 0]%Q (Some 2)) = Some (3 # 2)%Q /\
  returned_loss (accumulate_gradient_with_states centred_fn 1%Q 0%Q
                   [1; 3]%Q [0; 0]%Q (Some 1)) = Some (2 # 1)%Q /\
  ~ (3 # 2 == 2 # 1)%Q.
Proof.
  split; [lia|]. split; [reflexivity|].
  split; [vm_compute; reflexivity|]. split; [vm_compute; reflexivity|].
  intros H. discriminate H.
Qed.


End AccumulatorFacts.

(** ** Start-up and the resume decision *)

Module MainFacts.
Import Main.

Lemma append_nonempty_r (a b : string) :
  b <> EmptyString -> (a ++ b)%string <> EmptyString.
Proof.
  intros Hb. destruct a; simpl; [exact Hb | discriminate].
Qed.

Lemma path_join_checkpoint_nonempty (dir : string) :
  path_join dir "checkpoint.npz" <> EmptyString.
Proof.
  unfold path_join. cbn [String.prefix].
  destruct (String.eqb dir EmptyString || ends_with_slash dir).
  - apply append_nonempty_r. discriminate.
  - apply append_nonempty_r. discriminate.
Qed.

Lemma truthy_str_some (s : string) :
  s <> EmptyString -> truthy_str (Some s) = true.
Proof.
  intros Hs. simpl. apply negb_true_iff, String.eqb_neq. exact Hs.
Qed.

Lemma truthy_str_inv (x : option string) :
  truthy_str x = true -> exists s, x = Some s /\ s <> EmptyString.
Proof.
  destruct x as [s|]; simpl; [|discriminate].
  intros H. exists s. split; [reflexivity|].
  now apply String.eqb_neq, negb_true_iff.
Qed.

Lemma save_checkpoint_path_truthy (cfg : Config) (env : Env) (p : string) :
  save_checkpoint_path cfg env = Some p -> truthy_str (Some p) = true.
Proof.
  unfold save_checkpoint_path.
  destruct (truthyZ (checkpoint_steps cfg)); [|discriminate].
  intros [= <-]. apply truthy_str_some, path_join_checkpoint_nonempty.
Qed.

(** The resume path when no checkpoint is found at the save path. *)
Lemma resume_checkpoint_path_fallback (cfg : Config) (env : Env) :
  (forall p, save_checkpoint_path cfg env = Some p -> gfile_exists env p = false) ->
  resume_checkpoint_path cfg env
  = if truthy_str (resume cfg) then option_map (fillin env) (resume cfg) else None.
Proof.
  intros Hno. unfold resume_checkpoint_path.
  destruct (save_checkpoint_path cfg env) as [p|] eqn:Hp.
  - rewrite (Hno p eq_refl), andb_false_r. reflexivity.
  - reflexivity.
Qed.

Lemma decide_init_fallback (cfg : Config) (env : Env) :
  (forall p, save_checkpoint_path cfg env = Some p -> gfile_exists env p = false) ->
  (forall r, resume cfg = Some r -> r <> EmptyString ->
             fillin env r <> EmptyString ->
             decide_init cfg env = Ok (ResumeFrom (fillin env r))) /\
  (truthy_str (resume cfg) = false ->
   truthy_str (model_init cfg) = true ->
   decide_init cfg env
   = Raise (ValueError
              "Load from `config.model_init` checkpoint is currently not supported.")) /\
  (truthy_str (resume cfg) = false ->
   truthy_str (model_init cfg) = false ->
   decide_init cfg env = Ok TrainFromScratch).
Proof.
  intros Hno. unfold decide_init.
  rewrite (resume_checkpoint_path_fallback cfg env Hno).
  repeat split.
  - intros r Hr Hne Hfill. rewrite Hr, (truthy_str_some r Hne).
    cbn [option_map]. now rewrite (truthy_str_some _ Hfill).
  - intros Hres Hinit. now rewrite Hres, Hinit.
  - intros Hres Hinit. now rewrite Hres, Hinit.
Qed.

(** C2. The resume decision takes the first that applies: (a) a checkpoint
    found at the save path of this run is resumed, whatever [config.resume]
    and [config.model_init] say; (b) otherwise the path [config.resume]
    names, as filled in by [fillin], is resumed; (c) otherwise a configured
    [model_init] ends the run with a [ValueError]; (d) otherwise training
    starts from scratch. *)
Theorem resume_precedence (cfg : Config) (env : Env) :
  (forall p,
      save_checkpoint_path cfg env = Some p ->
      gfile_exists env p = true ->
      decide_init cfg env = Ok (ResumeFrom p)) /\
  ((forall p, save_checkpoint_path cfg env = Some p -> gfile_exists env p = false) ->
   forall r,
     resume cfg = Some r -> r <> EmptyString -> fillin env r <> EmptyString ->
     decide_init cfg env = Ok (ResumeFrom (fillin env r))) /\
  ((forall p, save_checkpoint_path cfg env = Some p -> gfile_exists env p = false) ->
   truthy_str (resume cfg) = false ->
   truthy_str (model_init cfg) = true ->
   exists msg, decide_init cfg env = Raise (ValueError msg)) /\
  ((forall p, save_checkpoint_path cfg env = Some p -> gfile_exists env p = false) ->
   truthy_str (resume cfg) = false ->
   truthy_str (model_init cfg) = false ->
   decide_init cfg env = Ok TrainFromScratch).
Proof.
  split; [|split; [|split]].
  - intros p Hp Hex. unfold decide_init, resume_checkpoint_path.
    rewrite Hp, (save_checkpoint_path_truthy cfg env p Hp), Hex. cbn [andb].
    now rewrite (save_checkpoint_path_truthy cfg env p Hp).
  - intros Hno. apply (decide_init_fallback cfg env Hno).
  - intros Hno Hres Hinit. eexists.
    apply (decide_init_fallback cfg env Hno); assumption.
  - intros Hno. apply (decide_init_fallback cfg env Hno).
Qed.

(** C9. The save path exists only when [checkpoint_steps] is configured.
    Without it, a [checkpoint.npz] lying in the output directory is not
    looked at: the decision goes to [config.resume], then to
    [config.model_init], then to a fresh start. *)
Theorem output_checkpoint_needs_checkpoint_steps (cfg : Config) (env : Env) :
  truthyZ (checkpoint_steps cfg) = false ->
  save_checkpoint_path cfg env = None /\
  resume_checkpoint_path cfg env
  = (if truthy_str (resume cfg) then option_map (fillin env) (resume cfg) else None) /\
  (forall r,
      resume cfg = Some r -> r <> EmptyString -> fillin env r <> EmptyString ->
      decide_init cfg env = Ok (ResumeFrom (fillin env r))) /\
  (truthy_str (resume cfg) = false ->
   truthy_str (model_init cfg) = false ->
   decide_init cfg env = Ok TrainFromScratch).
Proof.
  intros Hsteps.
  assert (Hnone : save_checkpoint_path cfg env = None).
  { unfold save_checkpoint_path. now rewrite Hsteps. }
  assert (Hno : forall p, save_checkpoint_path cfg env = Some p ->
                          gfile_exists env p = false).
  { intros p Hp. congruence. }
  split; [exact Hnone|].
  split; [apply (resume_checkpoint_path_fallback cfg env Hno)|].
  split; apply (decide_init_fallback cfg env Hno).
Qed.

(** C2 on four runs: the output directory holds [checkpoint.npz] and
    [config.resume] names another path; only [config.resume] is there;
    only [config.model_init]; none of them. *)
Lemma resume_precedence_witness :
  decide_init
    (Scenario.config_with (Some 1000) None 4096 (Some "/other/path"%string) None)
    (Scenario.env_with ["/work/out/checkpoint.npz"%string; "/other/path"%string])
  = Ok (ResumeFrom "/work/out/checkpoint.npz") /\
  decide_init
    (Scenario.config_with (Some 1000) None 4096 (Some "/other/path"%string) None)
    (Scenario.env_with ["/other/path"%string])
  = Ok (ResumeFrom "/other/path") /\
  (exists msg,
      decide_init
        (Scenario.config_with (Some 1000) None 4096 None (Some "/init/model"%string))
        (Scenario.env_with [])
      = Raise (ValueError msg)) /\
  decide_init (Scenario.config_with (Some 1000) None 4096 None None)
              (Scenario.env_with [])
  = Ok TrainFromScratch.
Proof.
  split; [|split; [|split]].
  - apply (proj1 (resume_precedence _ _)); reflexivity.
  - refine (proj1 (proj2 (resume_precedence
              (Scenario.config_with (Some 1000) None 4096
                 (Some "/other/path"%string) None)
              (Scenario.env_with ["/other/path"%string])))
              _ "/other/path"%string eq_refl _ _).
    + intros p [= <-]. reflexivity.
    + discriminate.
    + discriminate.
  - refine (proj1 (proj2 (proj2 (resume_precedence
              (Scenario.config_with (Some 1000) None 4096 None
                 (Some "/init/model"%string))
              (Scenario.env_with [])))) _ eq_refl eq_refl).
    intros p [= <-]. reflexivity.
  - refine (proj2 (proj2 (proj2 (resume_precedence
              (Scenario.config_with (Some 1000) None 4096 None None)
              (Scenario.env_with [])))) _ eq_refl eq_refl).
    intros p [= <-]. reflexivity.
Defined.

(** C9 on a run without [checkpoint_steps] whose output directory holds a
    [checkpoint.npz]: [config.resume] is resumed when set, and training
    starts from scratch when not. *)
Lemma output_checkpoint_needs_checkpoint_steps_witness :
  gfile_exists (Scenario.env_with ["/work/out/checkpoint.npz"%string])
               (path_join "/work/out" "checkpoint.npz") = true /\
  decide_init
    (Scenario.config_with None None 4096 (Some "/other/path"%string) None)
    (Scenario.env_with ["/work/out/checkpoint.npz"%string])
  = Ok (ResumeFrom "/other/path") /\
  decide_init (Scenario.config_with None None 4096 None None)
              (Scenario.env_with ["/work/out/checkpoint.npz"%string])
  = Ok TrainFromScratch.
Proof.
  split; [reflexivity|]. split.
  - refine (proj1 (proj2 (proj2
              (output_checkpoint_needs_checkpoint_steps
                 (Scenario.config_with None None 4096 (Some "/other/path"%string) None)
                 (Scenario.env_with ["/work/out/checkpoint.npz"%string]) eq_refl)))
              "/other/path"%string eq_refl _ _); discriminate.
  - exact (proj2 (proj2 (proj2
             (output_checkpoint_needs_checkpoint_steps
                (Scenario.config_with None None 4096 None None)
                (Scenario.env_with ["/work/out/checkpoint.npz"%string]) eq_refl)))
             eq_refl eq_refl).
Defined.

End MainFacts.

(** ** The checkpoint block of the training loop *)

Module TrainLoopFacts.
Import TrainLoop.

Lemma NoDup_remove_elt (w : nat) (l : list nat) :
  NoDup l -> NoDup (remove Nat.eq_dec w l).
Proof.
  induction 1 as [|x l Hx Hnd IH]; simpl.
  - constructor.
  - destruct (Nat.eq_dec w x); [exact IH|].
    constructor; [|exact IH].
    intros Hin. apply in_remove in Hin. tauto.
Qed.

(** A duplicate-free list whose members all equal the writer's handle has
    at most one member. *)
Lemma at_most_one (writer : option nat) (l : list nat) :
  NoDup l -> (forall w, In w l -> writer = Some w) -> (length l <= 1)%nat.
Proof.
  intros Hnd Hall.
  destruct l as [|a [|b l]]; simpl; [lia | lia |].
  exfalso.
  assert (Ha : writer = Some a) by (apply Hall; simpl; auto).
  assert (Hb : writer = Some b) by (apply Hall; simpl; auto).
  inversion Hnd as [|? ? Hnotin _]. subst.
  apply Hnotin. left. congruence.
Qed.

Section Facts.

Variable cfg : Config.
Variable setup : Main.TrainSetup.
Variable itstime : Z -> option Z -> Z -> bool.

Abbreviation steps := (loop_step cfg setup itstime).
Abbreviation reach := (reachable cfg setup itstime).

(** When the wait returns, no save is in flight. *)
Lemma wait_returns_idle (st : LoopState) :
  writer_inv st ->
  (checkpoint_writer st = None \/
   exists w, checkpoint_writer st = Some w /\ ~ In w (in_flight st)) ->
  in_flight st = [].
Proof.
  intros (_ & Hall & _) Hw.
  destruct (in_flight st) as [|a l] eqn:Hfl; [reflexivity|].
  exfalso.
  assert (Ha : checkpoint_writer st = Some a) by (apply Hall; simpl; auto).
  destruct Hw as [Hnone | (w & Hsome & Hnot)].
  - congruence.
  - apply Hnot. left. congruence.
Qed.

Lemma apply_async_inv (st : LoopState) :
  writer_inv st -> in_flight st = [] -> writer_inv (apply_async st).
Proof.
  intros (_ & _ & Hlt) Hidle. unfold writer_inv, apply_async. simpl.
  rewrite Hidle. repeat split.
  - constructor; [simpl; tauto | constructor].
  - intros w [<- | []]. reflexivity.
  - intros w [= <-]. lia.
Qed.

Lemma loop_step_inv (st st' : LoopState) :
  steps st st' -> writer_inv st -> writer_inv st'.
Proof.
  intros Hstep Hinv.
  destruct Hstep as [st _ _ | st t _ Hw | st t w _ Hw Hnot _ | st t w _ _ _
                     | st t w _ _ _ | st _ _ _ | st _ _ | st w raised Hin].
  - exact Hinv.
  - apply apply_async_inv; [exact Hinv|].
    apply wait_returns_idle; auto.
  - apply apply_async_inv; [exact Hinv|].
    apply wait_returns_idle; eauto.
  - exact Hinv.
  - exact Hinv.
  - exact Hinv.
  - exact Hinv.
  - destruct Hinv as (Hnd & Hall & Hlt).
    unfold writer_inv, complete. simpl. repeat split.
    + now apply NoDup_remove_elt.
    + intros v Hv. apply in_remove in Hv. apply Hall, Hv.
    + exact Hlt.
Qed.

Lemma reachable_inv (st : LoopState) : reach st -> writer_inv st.
Proof.
  induction 1 as [|st st' _ IH Hstep].
  - unfold writer_inv, init_loop. simpl. repeat split.
    + constructor.
    + intros w [].
    + discriminate.
  - exact (loop_step_inv st st' Hstep IH).
Qed.

(** The wait is always entered with [config.get('checkpoint_timeout', 1)]. *)
Lemma reachable_timeout (st : LoopState) :
  reach st -> forall t, ctl st = Waiting t -> t = timeout_of cfg.
Proof.
  induction 1 as [|st st' _ IH Hstep]; intros t Hctl.
  - discriminate.
  - destruct Hstep; simpl in Hctl; try discriminate.
    + destruct (itstime _ _ _); [congruence | discriminate].
    + eauto.
Qed.

(** C3. At every moment of a run at most one checkpoint save is in flight.
    The wait before a save is entered with the configured
    [checkpoint_timeout], and with 1 when none is configured.  While the
    loop stands in that wait and the previous save is still pending, it is
    blocked: no step starts a save, and the loop either stays in the wait
    (a pool worker completes the save) or the run ends with an exception.
    A save is started only from inside the wait and only once no save is
    in flight any more; the new save is then the only one. *)
Theorem one_checkpoint_write_in_flight (st : LoopState) :
  reach st ->
  (length (in_flight st) <= 1)%nat /\
  (forall t,
      ctl st = Waiting t ->
      t = match checkpoint_timeout cfg with
          | Some configured => configured
          | None => 1
          end) /\
  forall st',
    steps st st' ->
    (forall t,
        ctl st = Waiting t ->
        in_flight st <> [] ->
        submitted st' = submitted st /\
        (ctl st' = Waiting t \/ exists e, ctl st' = Crashed e)) /\
    (submitted st' <> submitted st ->
     ctl st = Waiting (match checkpoint_timeout cfg with
                       | Some configured => configured
                       | None => 1
                       end) /\
     in_flight st = [] /\
     in_flight st' = [submitted st] /\
     checkpoint_writer st' = Some (submitted st)).
Proof.
  intros Hreach.
  pose proof (reachable_inv st Hreach) as Hinv.
  assert (Htimeout : forall t, ctl st = Waiting t ->
                               t = match checkpoint_timeout cfg with
                                   | Some configured => configured
                                   | None => 1
                                   end).
  { intros t Hctl. exact (reachable_timeout st Hreach t Hctl). }
  split; [|split; [exact Htimeout|]].
  - destruct Hinv as (Hnd & Hall & _).
    exact (at_most_one (checkpoint_writer st) (in_flight st) Hnd Hall).
  - intros st' Hstep.
    destruct Hstep as [st Hat _ | st t Hctl Hw | st t w Hctl Hw Hnot _
                       | st t w Hctl _ _ | st t w Hctl _ _ | st Hat _ _
                       | st Hat _ | st w raised Hin].
    + split; [|intros Hsub; exfalso; apply Hsub; reflexivity].
      intros t Hctl. congruence.
    + assert (Hidle : in_flight st = []) by (apply wait_returns_idle; auto).
      split; [intros t' _ Hbusy; contradiction|].
      intros _. rewrite (Htimeout t Hctl) in Hctl.
      simpl. rewrite Hidle. auto.
    + assert (Hidle : in_flight st = []) by (apply wait_returns_idle; eauto).
      split; [intros t' _ Hbusy; contradiction|].
      intros _. rewrite (Htimeout t Hctl) in Hctl.
      simpl. rewrite Hidle. auto.
    + split; [|intros Hsub; exfalso; apply Hsub; reflexivity].
      intros t' _ _. split; [reflexivity|]. right. now exists IOError.
    + split; [|intros Hsub; exfalso; apply Hsub; reflexivity].
      intros t' _ _. split; [reflexivity|]. right. now exists TimeoutError.
    + split; [|intros Hsub; exfalso; apply Hsub; reflexivity].
      intros t Hctl. congruence.
    + split; [|intros Hsub; exfalso; apply Hsub; reflexivity].
      intros t Hctl. congruence.
    + split; [|intros Hsub; exfalso; apply Hsub; reflexivity].
      intros t Hctl _. split; [reflexivity|]. left. exact Hctl.
Qed.

End Facts.

(** C3 on a run that checkpoints at every step with [checkpoint_timeout]
    set to 5.  The first save is started after the first update.  After the
    second update the loop stands in the wait, with timeout 5, while the
    first save is still in flight: the only step the main thread can take
    there is to end the run with [TimeoutError], and nothing is started.
    Once a pool worker has completed the first save, the wait returns and
    the second save is started; it is the only one in flight. *)
Lemma one_checkpoint_write_in_flight_witness :
  let run := reachable Scenario.patient_config Scenario.three_step_setup
               Scenario.itstime in
  let first_save :=
    apply_async
      (after_update Scenario.patient_config true
         (init_loop Scenario.three_step_setup)) in
  let blocked := after_update Scenario.patient_config true first_save in
  let released := complete 0 false blocked in
  let second_save := apply_async released in
  run blocked /\
  ctl blocked = Waiting 5 /\
  in_flight blocked = [0%nat] /\
  submitted (set_ctl (Crashed TimeoutError) blocked) = submitted blocked /\
  run released /\
  in_flight released = [] /\
  run second_save /\
  in_flight second_save = [1%nat] /\
  checkpoint_writer second_save = Some 1%nat /\
  (length (in_flight second_save) <= 1)%nat.
Proof.
  intros run first_save blocked released second_save.
  pose (cfg := Scenario.patient_config).
  pose (setup := Scenario.three_step_setup).
  assert (Hfirst : run first_save).
  { eapply reach_step.
    - eapply reach_step.
      + apply reach_init.
      + exact (update_step cfg setup Scenario.itstime (init_loop setup)
                 eq_refl eq_refl).
    - exact (wait_none cfg setup Scenario.itstime
               (after_update cfg true (init_loop setup)) 5 eq_refl eq_refl). }
  assert (Hblocked : run blocked).
  { eapply reach_step; [exact Hfirst|].
    exact (update_step cfg setup Scenario.itstime first_save eq_refl eq_refl). }
  assert (Hreleased : run released).
  { eapply reach_step; [exact Hblocked|].
    exact (save_completes cfg setup Scenario.itstime blocked 0 false
             (or_introl eq_refl)). }
  assert (Hdone : ~ In 0%nat (in_flight released)) by (intros []).
  assert (Hsecond : run second_save).
  { eapply reach_step; [exact Hreleased|].
    exact (wait_done cfg setup Scenario.itstime released 5 0 eq_refl eq_refl
             Hdone Hdone). }
  pose proof (one_checkpoint_write_in_flight cfg setup Scenario.itstime
                blocked Hblocked) as (_ & Htimeout & Hsteps).
  pose proof (Hsteps (set_ctl (Crashed TimeoutError) blocked)
                (wait_timeout cfg setup Scenario.itstime blocked 5 0
                   eq_refl eq_refl (or_introl eq_refl))) as (Hwait & _).
  pose proof (one_checkpoint_write_in_flight cfg setup Scenario.itstime
                released Hreleased) as (_ & _ & Hstart).
  pose proof (Hstart second_save
                (wait_done cfg setup Scenario.itstime released 5 0
                   eq_refl eq_refl Hdone Hdone)) as (_ & Hnew).
  destruct (Hnew ltac:(discriminate)) as (_ & _ & Honly & Hwriter).
  split; [exact Hblocked|].
  split; [exact (f_equal Waiting (Htimeout 5 eq_refl))|].
  split; [reflexivity|].
  split; [exact (proj1 (Hwait 5 eq_refl ltac:(discriminate)))|].
  split; [exact Hreleased|].
  split; [reflexivity|].
  split; [exact Hsecond|].
  split; [exact Honly|].
  split; [exact Hwriter|].
  exact (proj1 (one_checkpoint_write_in_flight cfg setup Scenario.itstime
                  second_save Hsecond)).
Defined.

End TrainLoopFacts.

(** ** Fatal configuration errors *)

Module StartupFacts.
Import Main.

Lemma startup_raise_never_trains (cfg : Config) (env : Env) (e : exn) :
  main_startup cfg env = Raise e ->
  forall itstime st, ~ TrainLoop.main_reaches cfg env itstime st.
Proof.
  intros Hraise itstime st (setup & Hok & _). congruence.
Qed.

Lemma check_batch_sizes_raises (cfg : Config) (env : Env) :
  batch_size cfg mod device_count env <> 0 \/
  (match batch_size_eval cfg with Some b => b | None => batch_size cfg end)
    mod device_count env <> 0 ->
  check_batch_sizes cfg env
  = Raise (ValueError "Batch sizes must be divisible by device number").
Proof.
  intros H. unfold check_batch_sizes.
  destruct H as [H | H]; apply Z.eqb_neq in H; rewrite H.
  - reflexivity.
  - now rewrite orb_true_r.
Qed.

(** C7. A batch the accumulation factor does not divide trips the
    accumulator's assertion whenever the factor is above one.  A train or
    evaluation batch size the device count does not divide makes start-up
    end with an exception, the [ValueError] of the batch-size check when the
    checkpoint settings pass, and the training loop is never entered. *)
Theorem indivisible_batch_is_fatal :
  (forall (Params States Img Lbl Leaf : Type)
          (loss_and_grad_fn :
             Params -> States -> list Img -> list Lbl
             -> (Q * States) * Accumulator.Grad Leaf)
          params states images labels n,
      1 < n ->
      Z.of_nat (length images) mod n <> 0 ->
      exists msg,
        Accumulator.accumulate_gradient_with_states loss_and_grad_fn
          params states images labels (Some n)
        = Raise (AssertionError msg)) /\
  (forall cfg env,
      batch_size cfg mod device_count env <> 0 \/
      (match batch_size_eval cfg with Some b => b | None => batch_size cfg end)
        mod device_count env <> 0 ->
      (exists e, main_startup cfg env = Raise e) /\
      (verify_checkpoint_settings cfg = Ok tt ->
       exists msg, main_startup cfg env = Raise (ValueError msg)) /\
      forall itstime st, ~ TrainLoop.main_reaches cfg env itstime st).
Proof.
  split.
  - intros Params States Img Lbl Leaf fn params states images labels n Hn Hmod.
    eexists.
    apply (AccumulatorFacts.accumulate_bad_accum_steps fn); assumption.
  - intros cfg env Hbad.
    pose proof (check_batch_sizes_raises cfg env Hbad) as Hcheck.
    assert (Hraise : exists e, main_startup cfg env = Raise e).
    { unfold main_startup.
      destruct (verify_checkpoint_settings cfg) as [[]|e]; cbn [bind].
      - rewrite Hcheck. eexists. reflexivity.
      - eexists. reflexivity. }
    split; [exact Hraise|]. split.
    + intros Hverify. unfold main_startup. rewrite Hverify. cbn [bind].
      rewrite Hcheck. eexists. reflexivity.
    + destruct Hraise as [e He]. exact (startup_raise_never_trains cfg env e He).
Qed.

(** C7 on a batch of three examples with factor 2, and on a batch size of
    4100 over eight devices. *)
Lemma indivisible_batch_is_fatal_witness :
  (exists msg,
      Accumulator.accumulate_gradient_with_states Accumulator.squared_error_fn
        1%Q 0%nat [1; 2; 3]%Q [2; 4; 6]%Q (Some 2)
      = Raise (AssertionError msg)) /\
  (exists msg,
      main_startup (Scenario.config_with (Some 1000) None 4100 None None)
                   (Scenario.env_with [])
      = Raise (ValueError msg)).
Proof.
  split.
  - apply (proj1 indivisible_batch_is_fatal); [lia | discriminate].
  - refine (proj1 (proj2 (proj2 indivisible_batch_is_fatal
              (Scenario.config_with (Some 1000) None 4100 None None)
              (Scenario.env_with []) _)) eq_refl).
    left. discriminate.
Defined.

(** C10. With [keep_checkpoint_steps] configured, the check of the
    settings passes when [checkpoint_steps] is configured too and divides
    it; in every other case start-up ends with an [AssertionError] and the
    training loop is never entered. *)
Theorem keep_checkpoint_steps_verified (cfg : Config) (env : Env) :
  truthyZ (keep_checkpoint_steps cfg) = true ->
  ((exists keep every,
       keep_checkpoint_steps cfg = Some keep /\
       checkpoint_steps cfg = Some every /\
       every <> 0 /\
       keep mod every = 0) ->
   verify_checkpoint_settings cfg = Ok tt) /\
  (~ (exists keep every,
         keep_checkpoint_steps cfg = Some keep /\
         checkpoint_steps cfg = Some every /\
         every <> 0 /\
         keep mod every = 0) ->
   (exists msg, main_startup cfg env = Raise (AssertionError msg)) /\
   forall itstime st, ~ TrainLoop.main_reaches cfg env itstime st).
Proof.
  intros Hkeep. split.
  - intros (keep & every & Hk & He & Hne & Hmod).
    unfold verify_checkpoint_settings. rewrite Hkeep, Hk, He. simpl.
    apply Z.eqb_neq in Hne. rewrite Hne. simpl.
    apply Z.eqb_eq in Hmod. now rewrite Hmod.
  - intros Hnot.
    assert (Hraise : exists msg, verify_checkpoint_settings cfg
                                 = Raise (AssertionError msg)).
    { unfold verify_checkpoint_settings. rewrite Hkeep.
      destruct (keep_checkpoint_steps cfg) as [keep|] eqn:Hk; [|discriminate].
      destruct (checkpoint_steps cfg) as [every|] eqn:He;
        [|eexists; reflexivity].
      simpl. destruct (every =? 0) eqn:Hz; simpl; [eexists; reflexivity|].
      destruct (keep mod every =? 0) eqn:Hmod; simpl; [|eexists; reflexivity].
      exfalso. apply Hnot. exists keep, every.
      apply Z.eqb_neq in Hz. apply Z.eqb_eq in Hmod. auto. }
    destruct Hraise as [msg Hmsg].
    assert (Hmain : main_startup cfg env = Raise (AssertionError msg)).
    { unfold main_startup. now rewrite Hmsg. }
    split; [exists msg; exact Hmain|].
    exact (startup_raise_never_trains cfg env _ Hmain).
Qed.

(** C10 on three runs that keep a copy every 5000 steps: checkpoints every
    1000 steps, no [checkpoint_steps], checkpoints every 3000 steps. *)
Lemma keep_checkpoint_steps_verified_witness :
  verify_checkpoint_settings
    (Scenario.config_with (Some 1000) (Some 5000) 4096 None None) = Ok tt /\
  (exists msg,
      main_startup (Scenario.config_with None (Some 5000) 4096 None None)
                   (Scenario.env_with [])
      = Raise (AssertionError msg)) /\
  (exists msg,
      main_startup (Scenario.config_with (Some 3000) (Some 5000) 4096 None None)
                   (Scenario.env_with [])
      = Raise (AssertionError msg)).
Proof.
  split; [|split].
  - apply (proj1 (keep_checkpoint_steps_verified
                    (Scenario.config_with (Some 1000) (Some 5000) 4096 None None)
                    (Scenario.env_with []) eq_refl)).
    exists 5000, 1000. repeat split; [discriminate].
  - apply (proj2 (keep_checkpoint_steps_verified
                    (Scenario.config_with None (Some 5000) 4096 None None)
                    (Scenario.env_with []) eq_refl)).
    intros (keep & every & _ & He & _). discriminate He.
  - apply (proj2 (keep_checkpoint_steps_verified
                    (Scenario.config_with (Some 3000) (Some 5000) 4096 None None)
                    (Scenario.env_with []) eq_refl)).
    intros (keep & every & Hk & He & _ & Hmod).
    injection Hk as <-. injection He as <-. discriminate Hmod.
Defined.

End StartupFacts.

(** ** Weight decay *)

Module WeightDecayFacts.
Import WeightDecay.

Section Facts.

Variable re_match : string -> string -> bool.

Variable choose : string * Q -> list (string * Q) -> string * Q.

Hypothesis choose_in : forall rule others, In (choose rule others) (rule :: others).

Lemma matching_rules_nil (rules : list (string * Q)) (name : string) :
  matching_rules re_match rules name = [] ->
  forall rule, In rule rules -> re_match (fst rule) name = false.
Proof.
  intros Hnone rule Hin.
  destruct (re_match (fst rule) name) eqn:Hm; [|reflexivity].
  assert (Hfound : In rule (matching_rules re_match rules name)).
  { apply filter_In. split; assumption. }
  rewrite Hnone in Hfound. destruct Hfound.
Qed.

Lemma chosen_rule_matches (rules : list (string * Q)) (name : string)
    (rule : string * Q) (others : list (string * Q)) :
  matching_rules re_match rules name = rule :: others ->
  In (choose rule others) rules /\
  re_match (fst (choose rule others)) name = true.
Proof.
  intros Hsome. pose proof (choose_in rule others) as Hin.
  rewrite <- Hsome in Hin. apply filter_In in Hin. exact Hin.
Qed.

(** The decay step under the rules [decay_rules] evaluates to. *)
Lemma decayed_under_rules (cfg : Config) (lr : Q) (target : Tree) :
  Forall2 (decayed re_match cfg lr (decay_rules cfg)) target
          (apply_weight_decay re_match choose cfg lr target).
Proof.
  unfold apply_weight_decay, tree_map_with_regex.
  induction target as [|[name v] target IH]; simpl; constructor; [|exact IH].
  unfold decayed.
  destruct (matching_rules re_match (decay_rules cfg) name) as [|rule others] eqn:Hrules.
  - split; [reflexivity|]. right. split; [|reflexivity].
    exact (matching_rules_nil _ _ Hrules).
  - split; [reflexivity|]. left.
    destruct (chosen_rule_matches _ _ _ _ Hrules) as [Hin Hm].
    destruct (choose rule others) as [pattern wd].
    exists pattern, wd. split; [exact Hin|]. split; [exact Hm|]. reflexivity.
Qed.

(** C5. The decay step keeps every name.  With a list of rules configured,
    a parameter whose name matches one of them is scaled by [1 - rate * wd],
    with [wd] the coefficient of a rule that matches and [rate] equal to
    [lr / lr.base] when [weight_decay_decouple] is set (the base rate is
    then not zero) and to [lr] otherwise, and a parameter that matches no
    rule is left as it is.  A single number [wd] that is not zero stands
    for the one rule [.*kernel.*] with that coefficient, so that a name
    this pattern does not match is left alone.  With no weight decay
    configured, or zero, nothing is scaled. *)
Theorem weight_decay_by_rule (cfg : Config) (lr : Q) (target : Tree) :
  (truthy_bool (weight_decay_decouple cfg) = true -> ~ (lr_base cfg == 0)%Q) ->
  (forall rules,
      weight_decay cfg = WdRules rules ->
      Forall2 (decayed re_match cfg lr rules) target
              (apply_weight_decay re_match choose cfg lr target)) /\
  (forall wd,
      weight_decay cfg = WdNumber wd -> ~ (wd == 0)%Q ->
      Forall2 (decayed re_match cfg lr [(".*kernel.*"%string, wd)]) target
              (apply_weight_decay re_match choose cfg lr target)) /\
  (weight_decay cfg = WdAbsent \/
   (exists wd, weight_decay cfg = WdNumber wd /\ (wd == 0)%Q) ->
   apply_weight_decay re_match choose cfg lr target = target).
Proof.
  intros _. pose proof (decayed_under_rules cfg lr target) as Hall.
  split; [|split].
  - intros rules Hcfg. unfold decay_rules in Hall. rewrite Hcfg in Hall. exact Hall.
  - intros wd Hcfg Hne. unfold decay_rules in Hall. rewrite Hcfg in Hall.
    destruct (Qeq_bool wd 0) eqn:Hz; [|exact Hall].
    apply Qeq_bool_iff in Hz. contradiction.
  - intros Hcfg. clear Hall.
    assert (Hrules : decay_rules cfg = []).
    { unfold decay_rules.
      destruct Hcfg as [-> | (wd & -> & Hwd)]; [reflexivity|].
      apply Qeq_bool_iff in Hwd. now rewrite Hwd. }
    unfold apply_weight_decay, tree_map_with_regex. rewrite Hrules.
    induction target as [|[name v] target IH]; [reflexivity|].
    cbn [map matching_rules filter]. f_equal. exact IH.
Qed.

End Facts.

(** C5 with [lr / lr.base = 1/2] on three parameters.  Under the two rules
    [.*kernel.*] (1/10) and [head/.*] (1/5), the first match deciding, the
    kernel of the head is scaled by 19/20, its bias by 9/10, and the bias
    of the body, which no rule matches, is left alone.  Under the single
    number 1/10 the kernel is scaled by 19/20 and both biases are left
    alone. *)
Lemma weight_decay_by_rule_witness :
  let target := [("head/kernel"%string, [2; 4]%Q);
                 ("head/bias"%string, [1; 3]%Q);
                 ("body/bias"%string, [5]%Q)] in
  let by_rules :=
    apply_weight_decay re_fullmatch first_match Scenario.two_rule_config
      (1 # 2000) target in
  let number_config := Scenario.config_with (Some 1000) None 4096 None None in
  let by_number :=
    apply_weight_decay re_fullmatch first_match number_config (1 # 2000) target in
  Forall2 (decayed re_fullmatch Scenario.two_rule_config (1 # 2000)
             [(".*kernel.*"%string, 1 # 10); ("head/.*"%string, 1 # 5)])
          target by_rules /\
  map (fun p => (fst p, map Qred (snd p))) by_rules
  = [("head/kernel"%string, [19 # 10; 19 # 5]%Q);
     ("head/bias"%string, [9 # 10; 27 # 10]%Q);
     ("body/bias"%string, [5]%Q)] /\
  Forall2 (decayed re_fullmatch number_config (1 # 2000)
             [(".*kernel.*"%string, 1 # 10)])
          target by_number /\
  map (fun p => (fst p, map Qred (snd p))) by_number
  = [("head/kernel"%string, [19 # 10; 19 # 5]%Q);
     ("head/bias"%string, [1; 3]%Q);
     ("body/bias"%string, [5]%Q)].
Proof.
  intros target by_rules number_config by_number.
  assert (Hchoose : forall rule others,
             In (first_match rule others) (rule :: others)).
  { intros rule others. left. reflexivity. }
  split; [|split; [vm_compute; reflexivity|split; [|vm_compute; reflexivity]]].
  - apply (proj1 (weight_decay_by_rule re_fullmatch first_match Hchoose
                    Scenario.two_rule_config (1 # 2000) target
                    ltac:(intros _ H; discriminate H))).
    reflexivity.
  - apply (proj1 (proj2 (weight_decay_by_rule re_fullmatch first_match Hchoose
                           number_config (1 # 2000) target
                           ltac:(intros _ H; discriminate H))) (1 # 10)).
    + reflexivity.
    + intros H; discriminate H.
Defined.

End WeightDecayFacts.

(** ** Validation *)

Module EvaluationFacts.
Import Evaluation.

Lemma Qsum_zip_add (a b : list Q) :
  length a = length b ->
  (Qsum (map (fun ab => fst ab + snd ab) (combine a b)) == Qsum a + Qsum b)%Q.
Proof.
  revert b. induction a as [|x a IH]; intros [|y b] Hlen; try discriminate.
  - simpl. ring.
  - simpl. rewrite IH by (simpl in Hlen; lia). ring.
Qed.

Lemma psum_cons (v w : list Q) (rest : list (list Q)) :
  psum (v :: w :: rest)
  = map (fun ab => (fst ab + snd ab)%Q) (combine v (psum (w :: rest))).
Proof. reflexivity. Qed.

Lemma psum_length (size : nat) (vs : list (list Q)) :
  vs <> [] -> Forall (fun v => length v = size) vs -> length (psum vs) = size.
Proof.
  induction vs as [|v [|w rest] IH]; intros Hne Hall.
  - contradiction.
  - now inversion Hall.
  - rewrite psum_cons, length_map, length_combine.
    inversion Hall as [|? ? Hv Hrest]; subst.
    rewrite IH by (assumption || discriminate). lia.
Qed.

(** Summing the [psum] of the replicas' arrays adds up every entry of every
    replica. *)
Lemma Qsum_psum (size : nat) (vs : list (list Q)) :
  Forall (fun v => length v = size) vs ->
  (Qsum (psum vs) == Qsum (map Qsum vs))%Q.
Proof.
  induction vs as [|v [|w rest] IH]; intros Hall.
  - reflexivity.
  - simpl. ring.
  - inversion Hall as [|? ? Hv Hrest]; subst.
    rewrite psum_cons, Qsum_zip_add.
    + rewrite (IH Hrest). simpl. ring.
    + rewrite (psum_length (length v)); [reflexivity | discriminate | exact Hrest].
Qed.

Lemma Qsum_concat_map {A : Type} (f : A -> Q) (ls : list (list A)) :
  (Qsum (map Qsum (map (map f) ls)) == Qsum (map f (concat ls)))%Q.
Proof.
  induction ls as [|l ls IH]; simpl.
  - reflexivity.
  - rewrite map_app, Qsum_app, IH. reflexivity.
Qed.

Lemma Qsum_all_zero (l : list Q) :
  Forall (fun x => (x == 0)%Q) l -> (Qsum l == 0)%Q.
Proof.
  induction 1 as [|x l Hx _ IH]; simpl.
  - reflexivity.
  - rewrite Hx, IH. ring.
Qed.

Lemma zip_add_all_zero (v u : list Q) :
  Forall (fun x => (x == 0)%Q) v ->
  Forall (fun x => (x == 0)%Q) u ->
  Forall (fun x => (x == 0)%Q) (map (fun ab => (fst ab + snd ab)%Q) (combine v u)).
Proof.
  intros Hv. revert u.
  induction Hv as [|x v Hx _ IH]; intros u Hu; [constructor|].
  destruct Hu as [|y u Hy Hu]; [constructor|].
  simpl. constructor.
  - rewrite Hx, Hy. ring.
  - apply IH, Hu.
Qed.

Lemma psum_all_zero (vs : list (list Q)) :
  Forall (Forall (fun x => (x == 0)%Q)) vs -> Forall (fun x => (x == 0)%Q) (psum vs).
Proof.
  induction vs as [|v [|w rest] IH]; intros Hall.
  - constructor.
  - now inversion Hall.
  - inversion Hall as [|? ? Hv Hrest]; subst.
    rewrite psum_cons. apply zip_add_all_zero; auto.
Qed.

Lemma Qsum_indicator {A : Type} (f : A -> bool) (l : list A) :
  (Qsum (map (fun a => if f a then 1 else 0) l)
   == inject_Z (Z.of_nat (length (filter f l))))%Q.
Proof.
  induction l as [|a l IH]; simpl.
  - reflexivity.
  - rewrite IH. destruct (f a); simpl length.
    + rewrite Nat2Z.inj_succ, <- Z.add_1_l, inject_Z_plus. reflexivity.
    + ring.
Qed.

Lemma Qsum_filtered {A : Type} (f : A -> bool) (g : A -> Q) (l : list A) :
  (Qsum (map (fun a => if f a then g a else 0) l) == Qsum (map g (filter f l)))%Q.
Proof.
  induction l as [|a l IH]; simpl.
  - reflexivity.
  - rewrite IH. destruct (f a); simpl; ring.
Qed.

(** *** Masks and labels that are zero or one *)

Lemma qmax_binary (a b : Q) :
  ((a == 0)%Q \/ (a == 1)%Q) -> ((b == 0)%Q \/ (b == 1)%Q) ->
  ((qmax a b == 0)%Q /\ (a == 0)%Q /\ (b == 0)%Q) \/
  ((qmax a b == 1)%Q /\ ((a == 1)%Q \/ (b == 1)%Q)).
Proof.
  intros Ha Hb. unfold qmax.
  destruct (Qle_bool a b) eqn:Hle.
  - apply Qle_bool_iff in Hle.
    destruct Hb as [Hb | Hb]; [|right; auto].
    destruct Ha as [Ha | Ha]; [left; auto|].
    exfalso. rewrite Ha, Hb in Hle. now apply Hle.
  - destruct Ha as [Ha | Ha]; [|right; auto].
    exfalso. assert (Hab : (a <= b)%Q).
    { rewrite Ha. destruct Hb as [-> | ->]; discriminate. }
    apply Qle_bool_iff in Hab. congruence.
Qed.

Lemma nonzero_binary (y : Q) :
  ((y == 0)%Q \/ (y == 1)%Q) ->
  (negb (Qeq_bool y 0) = false /\ (y == 0)%Q) \/
  (negb (Qeq_bool y 0) = true /\ (y == 1)%Q).
Proof.
  intros [Hy | Hy].
  - left. split; [|exact Hy]. apply negb_false_iff, Qeq_bool_iff, Hy.
  - right. split; [|exact Hy]. apply negb_true_iff.
    destruct (Qeq_bool y 0) eqn:Hz; [|reflexivity].
    apply Qeq_bool_iff in Hz. rewrite Hy in Hz. discriminate Hz.
Qed.

Lemma fold_qmax_binary (rest : list Q) :
  Forall (fun y => (y == 0)%Q \/ (y == 1)%Q) rest ->
  forall x, ((x == 0)%Q \/ (x == 1)%Q) ->
  (fold_left qmax rest x
   == if negb (Qeq_bool x 0) || existsb (fun y => negb (Qeq_bool y 0)) rest
      then 1 else 0)%Q.
Proof.
  induction 1 as [|y rest Hy _ IH]; intros x Hx.
  - simpl. rewrite orb_false_r.
    destruct (nonzero_binary x Hx) as [[-> H] | [-> H]]; exact H.
  - cbn [fold_left existsb].
    destruct (qmax_binary x y Hx Hy) as [(Hm & Hx0 & Hy0) | (Hm & H1)].
    + rewrite (IH (qmax x y) (or_introl Hm)).
      destruct (nonzero_binary x Hx) as [[-> _] | [_ Hx1]];
        [|rewrite Hx0 in Hx1; discriminate Hx1].
      destruct (nonzero_binary y Hy) as [[-> _] | [_ Hy1]];
        [|rewrite Hy0 in Hy1; discriminate Hy1].
      destruct (nonzero_binary _ (or_introl Hm)) as [[-> _] | [_ Hm1]];
        [|rewrite Hm in Hm1; discriminate Hm1].
      reflexivity.
    + rewrite (IH (qmax x y) (or_intror Hm)).
      destruct (nonzero_binary _ (or_intror Hm)) as [[_ Hm0] | [-> _]];
        [rewrite Hm in Hm0; discriminate Hm0|].
      assert (Hone : negb (Qeq_bool x 0) || negb (Qeq_bool y 0) = true).
      { destruct H1 as [Hx1 | Hy1].
        - destruct (nonzero_binary x Hx) as [[_ Hx0] | [-> _]]; [|reflexivity].
          rewrite Hx1 in Hx0. discriminate Hx0.
        - destruct (nonzero_binary y Hy) as [[_ Hy0] | [-> _]];
            [|apply orb_true_r].
          rewrite Hy1 in Hy0. discriminate Hy0. }
      rewrite orb_assoc, Hone. reflexivity.
Qed.

Lemma list_max_binary (l : list Q) :
  Forall (fun y => (y == 0)%Q \/ (y == 1)%Q) l ->
  (list_max l == if existsb (fun y => negb (Qeq_bool y 0)) l then 1 else 0)%Q.
Proof.
  intros Hall. destruct l as [|x rest]; [reflexivity|].
  inversion Hall as [|? ? Hx Hrest]; subst.
  exact (fold_qmax_binary rest Hrest x Hx).
Qed.

Lemma fold_qmax_zero (rest : list Q) :
  Forall (fun y => (y == 0)%Q) rest ->
  forall x, (x == 0)%Q -> (fold_left qmax rest x == 0)%Q.
Proof.
  induction 1 as [|y rest Hy _ IH]; intros x Hx; [exact Hx|].
  cbn [fold_left]. apply IH. unfold qmax.
  destruct (Qle_bool x y); assumption.
Qed.

(** The largest of labels that are all zero is zero. *)
Lemma list_max_zero (l : list Q) :
  Forall (fun y => (y == 0)%Q) l -> (list_max l == 0)%Q.
Proof.
  intros Hall. destruct l as [|x rest]; [reflexivity|].
  inversion Hall; subst. now apply fold_qmax_zero.
Qed.

Section Facts.

Context {Img : Type}.
Variable model_logits : Img -> list Q.
Variable loss_fn : list Q -> list Q -> Q.

Abbreviation top1 := (top1_correct model_logits).
Abbreviation loss_at := (example_loss model_logits loss_fn).
Abbreviation run_batch := (eval_batch model_logits loss_fn).
Abbreviation run_split := (evaluate_split model_logits loss_fn).

(** An entry whose labels are all zero gets mask zero. *)
Lemma eval_mask_zero_labels (e : Example Img) :
  Forall (fun y => (y == 0)%Q) (labels e) -> (eval_mask e == 0)%Q.
Proof.
  intros Hall. unfold eval_mask. rewrite (list_max_zero _ Hall). ring.
Qed.

Lemma eval_mask_indicator (e : Example Img) :
  binary e -> (eval_mask e == if is_valid e then 1 else 0)%Q.
Proof.
  intros (Hmask & _ & Hlab). unfold eval_mask, is_valid.
  rewrite (list_max_binary _ Hlab).
  destruct Hmask as [Hm | Hm].
  - assert (Hb : Qeq_bool (mask e) 1 = false).
    { destruct (Qeq_bool (mask e) 1) eqn:Hq; [|reflexivity].
      apply Qeq_bool_iff in Hq. rewrite Hm in Hq. discriminate Hq. }
    rewrite Hb, Hm. simpl. ring.
  - assert (Hb : Qeq_bool (mask e) 1 = true) by (apply Qeq_bool_iff, Hm).
    rewrite Hb, Hm. simpl. ring.
Qed.

Lemma top1_indicator (e : Example Img) :
  binary e -> (top1 e == if is_correct model_logits e then 1 else 0)%Q.
Proof.
  intros (_ & _ & Hlab). unfold is_correct, top1_correct.
  assert (Hnth : forall i, (nth i (labels e) 0 == 0)%Q \/ (nth i (labels e) 0 == 1)%Q).
  { induction Hlab as [|y l Hy _ IH]; intros [|i]; simpl; auto; left; reflexivity. }
  destruct (Hnth (argmax (model_logits (image e)))) as [H0 | H1].
  - destruct (Qeq_bool _ 1) eqn:Hq; [|exact H0].
    apply Qeq_bool_iff in Hq. exact Hq.
  - assert (Hq : Qeq_bool (nth (argmax (model_logits (image e))) (labels e) 0%Q) 1
                 = true) by (apply Qeq_bool_iff, H1).
    rewrite Hq. exact H1.
Qed.

(** What one batch adds to the three accumulators. *)
Lemma batch_sums (batch : list (list (Example Img))) :
  rectangular batch ->
  let '(ncorrect, loss, n) := evaluation_fn model_logits loss_fn batch in
  (Qsum ncorrect == Qsum (map (fun e => top1 e * eval_mask e) (concat batch)))%Q /\
  (Qsum loss == Qsum (map (fun e => loss_at e * eval_mask e) (concat batch)))%Q /\
  (Qsum n == Qsum (map eval_mask (concat batch)))%Q.
Proof.
  intros [size Hsize]. unfold evaluation_fn.
  assert (Hrect : forall f : Example Img -> Q,
             (Qsum (psum (map (map f) batch)) == Qsum (map f (concat batch)))%Q).
  { intros f. rewrite (Qsum_psum size), Qsum_concat_map; [reflexivity|].
    apply Forall_map. eapply Forall_impl; [|exact Hsize].
    intros b Hb. simpl. now rewrite length_map. }
  repeat split; apply Hrect.
Qed.

(** Once the accumulators are NumPy scalars they stay so, and each grows
    by what the batches add. *)
Lemma fold_eval_float (sums : list (list (Example Img)) -> Q * Q * Q)
    (batches : list (list (list (Example Img)))) :
  Forall (fun b =>
            let '(ncorrect, loss, n) := evaluation_fn model_logits loss_fn b in
            let '(sc, sl, sn) := sums b in
            (Qsum ncorrect == sc)%Q /\ (Qsum loss == sl)%Q /\ (Qsum n == sn)%Q)
         batches ->
  forall c l n,
  exists c' l' n',
    fold_left run_batch batches (NpFloat c, NpFloat l, NpFloat n)
    = (NpFloat c', NpFloat l', NpFloat n') /\
    (c' == c + Qsum (map (fun b => fst (fst (sums b))) batches))%Q /\
    (l' == l + Qsum (map (fun b => snd (fst (sums b))) batches))%Q /\
    (n' == n + Qsum (map (fun b => snd (sums b)) batches))%Q.
Proof.
  induction 1 as [|b batches Hb _ IH]; intros c l n.
  - exists c, l, n. simpl. repeat split; ring.
  - cbn [fold_left]. unfold eval_batch at 2.
    destruct (evaluation_fn model_logits loss_fn b) as [[bc bl] bn].
    destruct (sums b) as [[sc sl] sn] eqn:Hsums.
    destruct Hb as (Hc & Hl & Hn). cbn [py_add].
    destruct (IH (c + Qsum bc)%Q (l + Qsum bl)%Q (n + Qsum bn)%Q)
      as (c' & l' & n' & Hfold & Hc' & Hl' & Hn').
    exists c', l', n'. split; [exact Hfold|].
    cbn [map Qsum fold_right]. rewrite Hsums. cbn [fst snd].
    rewrite Hc', Hl', Hn', Hc, Hl, Hn. repeat split; unfold Qsum; ring.
Qed.

(** The same from the start of the loop, where the accumulators are the
    Python integer 0, when at least one batch is evaluated. *)
Lemma fold_eval_start (sums : list (list (Example Img)) -> Q * Q * Q)
    (batches : list (list (list (Example Img)))) :
  batches <> [] ->
  Forall (fun b =>
            let '(ncorrect, loss, n) := evaluation_fn model_logits loss_fn b in
            let '(sc, sl, sn) := sums b in
            (Qsum ncorrect == sc)%Q /\ (Qsum loss == sl)%Q /\ (Qsum n == sn)%Q)
         batches ->
  exists c' l' n',
    fold_left run_batch batches (PyInt 0, PyInt 0, PyInt 0)
    = (NpFloat c', NpFloat l', NpFloat n') /\
    (c' == Qsum (map (fun b => fst (fst (sums b))) batches))%Q /\
    (l' == Qsum (map (fun b => snd (fst (sums b))) batches))%Q /\
    (n' == Qsum (map (fun b => snd (sums b)) batches))%Q.
Proof.
  intros Hne Hall. destruct batches as [|b batches]; [contradiction|].
  inversion Hall as [|? ? Hb Hrest]; subst.
  cbn [fold_left]. unfold eval_batch at 2.
  destruct (evaluation_fn model_logits loss_fn b) as [[bc bl] bn].
  destruct (sums b) as [[sc sl] sn] eqn:Hsums.
  destruct Hb as (Hc & Hl & Hn). cbn [py_add].
  destruct (fold_eval_float sums batches Hrest
              (inject_Z 0 + Qsum bc)%Q (inject_Z 0 + Qsum bl)%Q
              (inject_Z 0 + Qsum bn)%Q)
    as (c' & l' & n' & Hfold & Hc' & Hl' & Hn').
  exists c', l', n'. split; [exact Hfold|].
  cbn [map Qsum fold_right]. rewrite Hsums. cbn [fst snd].
  rewrite Hc', Hl', Hn', Hc, Hl, Hn.
  change (inject_Z 0) with 0%Q. repeat split; unfold Qsum; ring.
Qed.

Lemma Qsum_per_batch (f : Example Img -> Q) (batches : list (list (list (Example Img)))) :
  (Qsum (map (fun b => Qsum (map f (concat b))) batches)
   == Qsum (map f (concat (concat batches))))%Q.
Proof.
  induction batches as [|b batches IH]; simpl.
  - reflexivity.
  - rewrite concat_app, map_app, Qsum_app, IH. reflexivity.
Qed.

Lemma Qsum_zeros {A : Type} (l : list A) : (Qsum (map (fun _ => 0) l) == 0)%Q.
Proof.
  induction l as [|a l IH]; simpl; [reflexivity|]. rewrite IH. ring.
Qed.

(** C6. Over the batches evaluated, every replica holding a per-device
    batch of the same size.  Each entry is weighted by its mask times the
    largest of its labels, which is zero when the labels are all zero.  The
    three arrays [evaluation_fn] returns for a batch add up to the sums,
    over the entries of all replicas, of the weighted label at the largest
    logit, of the weighted loss and of the weights.  prec@1 is the first
    sum over all batches divided by the third, and the loss is the second
    divided by the third.  With masks and labels that are zero or one,
    these sums are the number of valid entries whose label at the largest
    logit is set, the sum of the losses of the valid entries, and the
    number of valid entries. *)
Theorem validation_metrics (val_steps : Z)
    (val_iter : list (list (list (Example Img)))) :
  let evaluated := firstn (Z.to_nat val_steps) val_iter in
  let seen := entries val_steps val_iter in
  let hit := fun e : Example Img =>
               nth (argmax (model_logits (image e))) (labels e) 0%Q in
  let cost := fun e : Example Img => loss_fn (model_logits (image e)) (labels e) in
  let weight := fun e : Example Img => (mask e * list_max (labels e))%Q in
  let correct := Qsum (map (fun e => hit e * weight e) seen)%Q in
  let loss_sum := Qsum (map (fun e => cost e * weight e) seen)%Q in
  let n := Qsum (map weight seen) in
  Forall rectangular evaluated ->
  ~ (n == 0)%Q ->
  (forall e, Forall (fun y => (y == 0)%Q) (labels e) -> (weight e == 0)%Q) /\
  (forall batch,
      In batch evaluated ->
      let '(batch_ncorrect, batch_losses, batch_n) :=
        evaluation_fn model_logits loss_fn batch in
      (Qsum batch_ncorrect
       == Qsum (map (fun e => hit e * weight e) (concat batch)))%Q /\
      (Qsum batch_losses
       == Qsum (map (fun e => cost e * weight e) (concat batch)))%Q /\
      (Qsum batch_n == Qsum (map weight (concat batch)))%Q) /\
  (exists acc loss,
      evaluate_split model_logits loss_fn val_steps val_iter
      = Ok (NpFloat acc, NpFloat loss) /\
      (acc == correct / n)%Q /\
      (loss == loss_sum / n)%Q) /\
  (Forall binary seen ->
   (correct == count (fun e => is_valid e && is_correct model_logits e) seen)%Q /\
   (n == count is_valid seen)%Q /\
   (loss_sum == Qsum (map cost (filter is_valid seen)))%Q).
Proof.
  intros evaluated seen hit cost weight correct loss_sum n Hrect Hcount.
  subst correct loss_sum n.
  change hit with top1 in *. change cost with loss_at in *.
  change weight with (@eval_mask Img) in *. clear hit cost weight.
  split; [intros e Hzero; exact (eval_mask_zero_labels e Hzero)|].
  split; [|split].
  - intros batch Hbatch. rewrite Forall_forall in Hrect.
    exact (batch_sums batch (Hrect batch Hbatch)).
  - pose (sums := fun b : list (list (Example Img)) =>
                    (Qsum (map (fun e => top1 e * eval_mask e) (concat b)),
                     Qsum (map (fun e => loss_at e * eval_mask e) (concat b)),
                     Qsum (map eval_mask (concat b)))%Q).
    assert (Hne : evaluated <> []).
    { intros Hnil. apply Hcount. unfold seen, entries. fold evaluated.
      rewrite Hnil. reflexivity. }
    assert (Hsums : Forall (fun b =>
               let '(ncorrect, loss, n) := evaluation_fn model_logits loss_fn b in
               let '(sc, sl, sn) := sums b in
               (Qsum ncorrect == sc)%Q /\ (Qsum loss == sl)%Q /\ (Qsum n == sn)%Q)
             evaluated).
    { eapply Forall_impl; [|exact Hrect].
      intros b Hb. exact (batch_sums b Hb). }
    destruct (fold_eval_start sums evaluated Hne Hsums)
      as (c & l & m & Hfold & Hc & Hl & Hm).
    unfold sums in Hc, Hl, Hm. cbn [fst snd] in Hc, Hl, Hm.
    rewrite Qsum_per_batch in Hc, Hl, Hm.
    fold seen in Hc, Hl, Hm.
    assert (Hnz : Qeq_bool m 0 = false).
    { destruct (Qeq_bool m 0) eqn:Hq; [|reflexivity].
      apply Qeq_bool_iff in Hq. exfalso. apply Hcount.
      exact (Qeq_trans _ _ _ (Qeq_sym _ _ Hm) Hq). }
    exists (c / m)%Q, (l / m)%Q. split.
    + unfold evaluate_split. fold evaluated. rewrite Hfold.
      cbn [py_div]. rewrite Hnz. reflexivity.
    + split.
      * exact (Qdiv_comp _ _ Hc _ _ Hm).
      * exact (Qdiv_comp _ _ Hl _ _ Hm).
  - intros Hbin. rewrite Forall_forall in Hbin.
    unfold count. repeat split.
    + rewrite <- Qsum_indicator.
      apply Qsum_map_ext. intros e He.
      rewrite (eval_mask_indicator e (Hbin e He)), (top1_indicator e (Hbin e He)).
      destruct (is_valid e), (is_correct model_logits e); simpl; ring.
    + rewrite <- Qsum_indicator.
      apply Qsum_map_ext. intros e He. apply eval_mask_indicator, Hbin, He.
    + rewrite <- Qsum_filtered.
      apply Qsum_map_ext. intros e He.
      rewrite (eval_mask_indicator e (Hbin e He)).
      destruct (is_valid e); ring.
Qed.

(** C4 (amended). The two divisions of the evaluation loop are not
    guarded.  When no batch is evaluated the accumulators are still the
    Python integer 0 and the first division raises [ZeroDivisionError];
    when batches are evaluated and every entry is masked out, or has no
    label set, the count is a NumPy zero and both metrics are [nan]. *)
Theorem validation_division_unguarded (val_steps : Z)
    (val_iter : list (list (list (Example Img)))) :
  let evaluated := firstn (Z.to_nat val_steps) val_iter in
  (evaluated = [] -> run_split val_steps val_iter = Raise ZeroDivisionError) /\
  (evaluated <> [] ->
   (forall e, In e (entries val_steps val_iter) ->
              (mask e == 0)%Q \/ Forall (fun y => (y == 0)%Q) (labels e)) ->
   run_split val_steps val_iter = Ok (NpNan, NpNan)).
Proof.
  intros evaluated. split.
  - intros Hnil. unfold evaluate_split. fold evaluated. now rewrite Hnil.
  - intros Hne Hmasked.
    assert (Hmask0 : forall e, In e (entries val_steps val_iter) -> (eval_mask e == 0)%Q).
    { intros e He. destruct (Hmasked e He) as [Hm | Hz].
      - unfold eval_mask. rewrite Hm. ring.
      - exact (eval_mask_zero_labels e Hz). }
    assert (Hzero : forall (g : Example Img -> Q) b,
               (forall e, In e (entries val_steps val_iter) -> (g e == 0)%Q) ->
               In b evaluated ->
               (Qsum (psum (map (map g) b)) == 0)%Q).
    { intros g b Hg Hb. apply Qsum_all_zero, psum_all_zero.
      apply Forall_map, Forall_forall. intros dev Hdev.
      apply Forall_map, Forall_forall. intros e He.
      apply Hg. unfold entries. fold evaluated.
      apply in_concat. exists dev. split; [|exact He].
      apply in_concat. exists b. auto. }
    assert (Hsums : Forall (fun b =>
               let '(ncorrect, loss, n) := evaluation_fn model_logits loss_fn b in
               let '(sc, sl, sn) := (0, 0, 0)%Q in
               (Qsum ncorrect == sc)%Q /\ (Qsum loss == sl)%Q /\ (Qsum n == sn)%Q)
             evaluated).
    { apply Forall_forall. intros b Hb. unfold evaluation_fn.
      split; [|split]; apply Hzero; try exact Hb; try exact Hmask0.
      - intros e He. rewrite (Hmask0 e He). ring.
      - intros e He. rewrite (Hmask0 e He). ring. }
    destruct (fold_eval_start (fun _ => (0, 0, 0)%Q) evaluated Hne Hsums)
      as (c & l & n & Hfold & Hc & Hl & Hn).
    cbn [fst snd] in Hc, Hl, Hn. rewrite Qsum_zeros in Hc, Hl, Hn.
    apply Qeq_bool_iff in Hc, Hl, Hn.
    unfold evaluate_split. fold evaluated. rewrite Hfold.
    cbn [py_div]. rewrite Hn, Hl. cbn [bind py_div]. rewrite Hc. reflexivity.
Qed.

End Facts.

Ltac zero_or_one :=
  repeat first
    [ apply Forall_nil
    | apply Forall_cons
    | split
    | left; reflexivity
    | right; reflexivity
    | discriminate ].

(** C6 on the batch of ten entries on two replicas, eight valid and six of
    them right, with the squared error as loss: the arrays the replicas
    get add up to 6, 45 and 8, prec@1 is 6/8 = 3/4 and the loss is 45/8,
    the losses of the eight valid entries adding up to 45. *)
Lemma validation_metrics_witness :
  let seen := entries 1 [Scenario.eval_batch_10] in
  length seen = 10%nat /\
  length (filter is_valid seen) = 8%nat /\
  length (filter (fun e => is_valid e && is_correct (fun logits => logits) e) seen)
  = 6%nat /\
  (let '(batch_ncorrect, batch_losses, batch_n) :=
     evaluation_fn (fun logits => logits) Scenario.squared_loss
                   Scenario.eval_batch_10 in
   (Qsum batch_ncorrect == 6)%Q /\
   (Qsum batch_losses == 45)%Q /\
   (Qsum batch_n == 8)%Q) /\
  (Qsum (map (fun e => Scenario.squared_loss (image e) (labels e))
             (filter is_valid seen)) == 45)%Q /\
  exists acc loss,
    evaluate_split (fun logits => logits) Scenario.squared_loss 1
                   [Scenario.eval_batch_10]
    = Ok (NpFloat acc, NpFloat loss) /\
    (acc == 3 # 4)%Q /\
    (loss == 45 # 8)%Q.
Proof.
  intros seen.
  split; [reflexivity|]. split; [reflexivity|]. split; [reflexivity|].
  destruct (validation_metrics (fun logits => logits) Scenario.squared_loss 1
              [Scenario.eval_batch_10])
    as (_ & Hbatch & (acc & loss & Hrun & Hacc & Hloss) & Hcounts).
  - apply Forall_cons; [|apply Forall_nil].
    exists 5%nat. zero_or_one.
  - vm_compute. discriminate.
  - split; [|split].
    + pose proof (Hbatch Scenario.eval_batch_10 (or_introl eq_refl)) as Hsums.
      destruct (evaluation_fn (fun logits => logits) Scenario.squared_loss
                              Scenario.eval_batch_10)
        as [[batch_ncorrect batch_losses] batch_n].
      destruct Hsums as (Hc & Hl & Hn).
      split; [|split].
      * apply (Qeq_trans _ _ _ Hc). vm_compute. reflexivity.
      * apply (Qeq_trans _ _ _ Hl). vm_compute. reflexivity.
      * apply (Qeq_trans _ _ _ Hn). vm_compute. reflexivity.
    + destruct Hcounts as (_ & _ & Hvalid).
      * unfold entries. cbn [firstn Z.to_nat Pos.to_nat Pos.iter_op Nat.add concat app].
        unfold Scenario.eval_batch_10. cbn [concat app]. zero_or_one.
      * apply (Qeq_trans _ _ _ (Qeq_sym _ _ Hvalid)). vm_compute. reflexivity.
    + exists acc, loss. split; [exact Hrun|]. split.
      * apply (Qeq_trans _ _ _ Hacc). vm_compute. reflexivity.
      * apply (Qeq_trans _ _ _ Hloss). vm_compute. reflexivity.
Defined.

(** C4 (amended) on a split with no batch and on a split whose only batch
    is masked out. *)
Lemma validation_division_unguarded_witness :
  evaluate_split (fun logits => logits) Scenario.squared_loss 0
                 ([] : list (list (list (Example (list Q)))))
  = Raise ZeroDivisionError /\
  evaluate_split (fun logits => logits) Scenario.squared_loss 1
                 [Scenario.eval_batch_masked]
  = Ok (NpNan, NpNan).
Proof.
  split.
  - exact (proj1 (validation_division_unguarded (fun logits => logits)
                    Scenario.squared_loss 0 []) eq_refl).
  - apply (proj2 (validation_division_unguarded (fun logits => logits)
                    Scenario.squared_loss 1 [Scenario.eval_batch_masked])).
    + discriminate.
    + intros e He. vm_compute in He.
      repeat (destruct He as [<- | He];
              [first [left; reflexivity | right; zero_or_one]|]).
      destruct He.
Defined.

(** C4 as stated fails: the evaluation of an empty validation split, for
    which [val_steps] is 0, divides the integer 0 by the integer 0 and ends
    with [ZeroDivisionError]; and for a batch that is masked out the two
    metrics are the [nan] of a division of zero by zero. *)
Lemma validation_divides_by_zero :
  val_steps_for 0 4096 = 0 /\
  evaluate_split (fun logits => logits) Scenario.squared_loss (val_steps_for 0 4096)
                 ([] : list (list (list (Example (list Q)))))
  = Raise ZeroDivisionError /\
  py_div (PyInt 0) (PyInt 0) = Raise ZeroDivisionError /\
  evaluate_split (fun logits => logits) Scenario.squared_loss 1
                 [Scenario.eval_batch_masked]
  = Ok (NpNan, NpNan).
Proof.
  split; [reflexivity|]. split; [reflexivity|]. split; [reflexivity|].
  vm_compute. reflexivity.
Qed.

End EvaluationFacts.

(** ** More on the gradient accumulator *)

Module AccumulatorMore.
Import Accumulator.

(** X1. Without a factor above one ([grad_accum_steps] absent, zero, one or
    negative) the loss and gradient of [update_fn] are those of one call on
    the full batch: nothing is sliced, and no batch size trips the
    assertion. *)
Theorem update_without_accumulation {Params States Img Lbl Leaf : Type}
    (cfg : Config)
    (loss_and_grad_fn :
       Params -> States -> list Img -> list Lbl -> (Q * States) * Grad Leaf)
    (target : Params) (states : States) (images : list Img) (labels : list Lbl) :
  (forall n, grad_accum_steps cfg = Some n -> n <= 1) ->
  update_loss_and_grad cfg loss_and_grad_fn target states images labels
  = Ok (loss_and_grad_fn target states images labels).
Proof.
  intros Hsmall. unfold update_loss_and_grad.
  apply AccumulatorFacts.accumulate_pass_through. exact Hsmall.
Qed.

Lemma update_without_accumulation_witness :
  update_loss_and_grad (Scenario.config_with (Some 1000) None 4096 None None)
    squared_error_fn 1%Q 0%nat [1; 2; 3]%Q [2; 4; 6]%Q
  = Ok (squared_error_fn 1%Q 0%nat [1; 2; 3]%Q [2; 4; 6]%Q).
Proof.
  apply (update_without_accumulation
           (Scenario.config_with (Some 1000) None 4096 None None)
           squared_error_fn).
  intros n Hn. discriminate Hn.
Defined.

Lemma concat_sub_batches {A : Type} (k : nat) :
  forall (n : nat) (xs : list A),
    length xs = (n * k)%nat ->
    concat (map (sub_batch xs k) (seq 0 n)) = xs.
Proof.
  induction n as [|n IH]; intros xs Hlen.
  - destruct xs; [reflexivity | discriminate].
  - cbn [seq map concat]. rewrite <- seq_shift, map_map.
    rewrite (map_ext _ (sub_batch (skipn k xs) k))
      by (intros i; apply AccumulatorFacts.sub_batch_skip).
    rewrite IH by (rewrite length_skipn; lia).
    unfold sub_batch. cbn [Nat.mul skipn]. apply firstn_skipn.
Qed.

(** X2. With a factor [n > 1] that divides the batch, the slices the
    accumulator takes (the prefix for the first call, a [dynamic_slice] for
    each later one) all have [batch // n] entries and, put end to end in
    the order of the calls, are the batch: every example is used once. *)
Theorem accumulator_slices_partition {A : Type} (xs : list A) (n : Z) :
  1 < n ->
  Z.of_nat (length xs) mod n = 0 ->
  let step_size := Z.of_nat (length xs) / n in
  let slices :=
    py_prefix xs step_size
    :: map (fun i => dynamic_slice xs (i * step_size) step_size)
           (map Z.of_nat (seq 1 (Z.to_nat n - 1))) in
  length slices = Z.to_nat n /\
  Forall (fun s => Z.of_nat (length s) = step_size) slices /\
  concat slices = xs.
Proof.
  intros Hn Hmod step_size slices.
  set (k := Z.to_nat step_size).
  assert (Hq : 0 <= step_size) by (apply Z.div_pos; lia).
  assert (Hk : Z.of_nat k = step_size) by (unfold k; lia).
  assert (Hlen : length xs = (Z.to_nat n * k)%nat).
  { pose proof (Z.div_exact (Z.of_nat (length xs)) n ltac:(lia)) as [_ He].
    specialize (He Hmod). fold step_size in He. nia. }
  assert (Hslices : slices = map (sub_batch xs k) (seq 0 (Z.to_nat n))).
  { unfold slices. replace (Z.to_nat n) with (S (Z.to_nat n - 1)) at 2 by lia.
    cbn [seq map]. f_equal.
    rewrite map_map. apply map_ext_in. intros i Hi. apply in_seq in Hi.
    rewrite <- Hk.
    apply (AccumulatorFacts.dynamic_slice_sub_batch xs (Z.to_nat n) k i Hlen). lia. }
  rewrite Hslices. split; [|split].
  - now rewrite length_map, length_seq.
  - apply Forall_map, Forall_forall. intros i Hi. apply in_seq in Hi.
    rewrite (AccumulatorFacts.sub_batch_length xs (Z.to_nat n) k i Hlen); lia.
  - apply concat_sub_batches, Hlen.
Qed.

Lemma accumulator_slices_partition_witness :
  py_prefix [1; 2; 3; 4; 5; 6]%nat 2
  :: map (fun i => dynamic_slice [1; 2; 3; 4; 5; 6]%nat (i * 2) 2) [1; 2]
  = [[1; 2]; [3; 4]; [5; 6]]%nat /\
  concat (py_prefix [1; 2; 3; 4; 5; 6]%nat 2
          :: map (fun i => dynamic_slice [1; 2; 3; 4; 5; 6]%nat (i * 2) 2) [1; 2])
  = [1; 2; 3; 4; 5; 6]%nat.
Proof.
  split; [reflexivity|].
  exact (proj2 (proj2 (accumulator_slices_partition [1; 2; 3; 4; 5; 6]%nat 3
                         ltac:(lia) eq_refl))).
Defined.

End AccumulatorMore.

(** ** The Gaussian-process layer settings *)

Module GpKwargsFacts.
Import GpKwargs.

(** X3. The [feature_scale] handed to the layer is never negative: a
    configured scale that is zero or above is passed on as it is, and a
    negative one, like the default -1 of an absent key, becomes [None].
    The other three settings are the configured values, with the defaults
    [True], 1 and 0.999 for absent keys. *)
Theorem gp_feature_scale_never_negative (gp_config : GpConfig) :
  match kw_feature_scale (get_gp_kwargs gp_config) with
  | Some s => (0 <= s)%Q /\ random_feature_scale gp_config = Some s
  | None =>
      random_feature_scale gp_config = None \/
      exists s, random_feature_scale gp_config = Some s /\ (s < 0)%Q
  end /\
  kw_normalize_input (get_gp_kwargs gp_config)
  = match normalize_input gp_config with Some b => b | None => true end /\
  kw_kernel_stddev (get_gp_kwargs gp_config)
  = match random_feature_stddev gp_config with Some x => x | None => 1%Q end /\
  kw_momentum (get_gp_kwargs gp_config)
  = match covmat_momentum gp_config with Some x => x | None => (999 # 1000)%Q end.
Proof.
  split; [|repeat split].
  unfold get_gp_kwargs. cbn [kw_feature_scale].
  destruct (random_feature_scale gp_config) as [s|]; cbn [get_or].
  - destruct (Qle_bool 0 s) eqn:Hle; cbn [negb].
    + split; [now apply Qle_bool_iff | reflexivity].
    + right. exists s. split; [reflexivity|].
      apply Qnot_le_lt. intros H. apply Qle_bool_iff in H. congruence.
  - left. reflexivity.
Qed.

End GpKwargsFacts.

(** ** What a start-up that returned guarantees *)

Module StartupMore.
Import Main.

(** X4. When start-up returns, the training loop can rely on this: both
    batch sizes are multiples of the device count and the train batch size
    is not zero; a configured [keep_checkpoint_steps] is a multiple of a
    configured, non-zero [checkpoint_steps]; [num_epochs] and [total_steps]
    are not both set; the save path is the one built from
    [checkpoint_steps]; a run from scratch starts at step 0 with no
    [model_init] configured; and a resumed run starts at the step of the
    checkpoint it loaded, which is the save path itself or the path
    [config.resume] names. *)
Theorem startup_guarantees (cfg : Config) (env : Env) (setup : TrainSetup) :
  main_startup cfg env = Ok setup ->
  batch_size cfg mod device_count env = 0 /\
  (match batch_size_eval cfg with Some b => b | None => batch_size cfg end)
    mod device_count env = 0 /\
  batch_size cfg <> 0 /\
  (truthyZ (keep_checkpoint_steps cfg) = true ->
   exists keep every,
     keep_checkpoint_steps cfg = Some keep /\
     checkpoint_steps cfg = Some every /\
     every <> 0 /\
     keep mod every = 0) /\
  (truthyQ (num_epochs cfg) = true -> truthyZ (total_steps cfg) = false) /\
  setup_save_path setup = save_checkpoint_path cfg env /\
  (setup_init setup = TrainFromScratch ->
   setup_first_step setup = 0 /\ truthy_str (model_init cfg) = false) /\
  (forall p,
      setup_init setup = ResumeFrom p ->
      load_checkpoint_step env p = Ok (setup_first_step setup) /\
      (setup_save_path setup = Some p \/
       exists r, resume cfg = Some r /\ p = fillin env r)).
Proof.
  unfold main_startup. intros Hmain.
  destruct (verify_checkpoint_settings cfg) as [[]|e] eqn:Hverify;
    cbn [bind] in Hmain; [|discriminate].
  destruct (check_batch_sizes cfg env) as [sizes|e] eqn:Hsizes;
    cbn [bind] in Hmain; [|discriminate].
  destruct (compute_total_steps cfg env) as [total|e] eqn:Htotal;
    cbn [bind] in Hmain; [|discriminate].
  destruct (decide_init cfg env) as [init|e] eqn:Hinit;
    cbn [bind] in Hmain; [|discriminate].
  assert (Hbatch : batch_size cfg mod device_count env = 0 /\
                   (match batch_size_eval cfg with
                    | Some b => b | None => batch_size cfg end)
                     mod device_count env = 0).
  { unfold check_batch_sizes in Hsizes.
    destruct (batch_size cfg mod device_count env =? 0) eqn:H1;
      [|discriminate].
    destruct ((match batch_size_eval cfg with
               | Some b => b | None => batch_size cfg end)
                mod device_count env =? 0) eqn:H2; [|discriminate].
    split; now apply Z.eqb_eq. }
  assert (Hnz : batch_size cfg <> 0 /\
                (truthyQ (num_epochs cfg) = true ->
                 truthyZ (total_steps cfg) = false)).
  { unfold compute_total_steps, PyFloat.int_truediv in Htotal.
    destruct (batch_size cfg =? 0) eqn:Hz; [discriminate|].
    split; [now apply Z.eqb_neq|].
    intros Hep. rewrite Hep in Htotal.
    destruct (truthyZ (total_steps cfg)); [|reflexivity].
    destruct (PyFloat.nearest_quotient (ntrain_img env) (batch_size cfg));
      cbn [bind] in Htotal; try discriminate;
      match type of Htotal with
      | context [PyFloat.float_of_Q ?q] => destruct (PyFloat.float_of_Q q)
      end; cbn [bind] in Htotal; try discriminate;
      match type of Htotal with
      | context [PyFloat.to_int ?x] => destruct (PyFloat.to_int x)
      end; discriminate. }
  assert (Hkeep : truthyZ (keep_checkpoint_steps cfg) = true ->
                  exists keep every,
                    keep_checkpoint_steps cfg = Some keep /\
                    checkpoint_steps cfg = Some every /\
                    every <> 0 /\ keep mod every = 0).
  { intros Hk. unfold verify_checkpoint_settings in Hverify. rewrite Hk in Hverify.
    unfold py_assert in Hverify.
    destruct (keep_checkpoint_steps cfg) as [keep|]; [|discriminate].
    destruct (checkpoint_steps cfg) as [every|]; [|discriminate].
    cbn [truthyZ] in Hverify.
    destruct (every =? 0) eqn:Hz; [discriminate|]. cbn [negb bind] in Hverify.
    destruct (keep mod every =? 0) eqn:Hm; [|discriminate].
    exists keep, every. apply Z.eqb_neq in Hz. apply Z.eqb_eq in Hm. auto. }
  destruct Hbatch as [Hb1 Hb2]. destruct Hnz as [Hnz Hboth].
  assert (Hdecide :
            (init = TrainFromScratch -> truthy_str (model_init cfg) = false) /\
            (forall p, init = ResumeFrom p ->
                       save_checkpoint_path cfg env = Some p \/
                       exists r, resume cfg = Some r /\ p = fillin env r)).
  { unfold decide_init in Hinit.
    destruct (truthy_str (resume_checkpoint_path cfg env)) eqn:Htruthy.
    - destruct (MainFacts.truthy_str_inv _ Htruthy) as (q & Hq & _).
      rewrite Hq in Hinit. injection Hinit as <-.
      split; [discriminate|]. intros p [= <-].
      unfold resume_checkpoint_path in Hq.
      destruct (truthy_str (save_checkpoint_path cfg env)
                && match save_checkpoint_path cfg env with
                   | Some p => gfile_exists env p
                   | None => false
                   end); [left; exact Hq|].
      destruct (truthy_str (resume cfg)); [|discriminate].
      destruct (resume cfg) as [r|]; [|discriminate].
      right. exists r. injection Hq as <-. auto.
    - destruct (truthy_str (model_init cfg)); [discriminate|].
      injection Hinit as <-. split; [reflexivity | discriminate]. }
  destruct Hdecide as [Hscratch Hresume].
  destruct init as [p|]; cbn [bind] in Hmain.
  - destruct (load_checkpoint_step env p) as [first|e] eqn:Hload;
      cbn [bind] in Hmain; [|discriminate].
    injection Hmain as <-.
    cbn [setup_save_path setup_init setup_first_step].
    do 6 (split; [assumption || reflexivity|]).
    split; [discriminate|].
    intros q [= <-]. split; [exact Hload | auto].
  - injection Hmain as <-.
    cbn [setup_save_path setup_init setup_first_step].
    do 6 (split; [assumption || reflexivity|]).
    split; [auto | discriminate].
Qed.

Lemma startup_guarantees_witness :
  let cfg := Scenario.config_with (Some 1000) (Some 5000) 4096
               (Some "/other/path"%string) None in
  let env := Scenario.env_with ["/work/out/checkpoint.npz"%string] in
  exists setup,
    main_startup cfg env = Ok setup /\
    setup_init setup = ResumeFrom "/work/out/checkpoint.npz" /\
    setup_save_path setup = Some "/work/out/checkpoint.npz"%string /\
    load_checkpoint_step env "/work/out/checkpoint.npz"
    = Ok (setup_first_step setup).
Proof.
  intros cfg env.
  set (setup := {| setup_save_path := Some "/work/out/checkpoint.npz"%string;
                   setup_total_steps := 10000;
                   setup_init := ResumeFrom "/work/out/checkpoint.npz";
                   setup_first_step := 500 |}).
  assert (Hrun : main_startup cfg env = Ok setup) by reflexivity.
  exists setup. split; [exact Hrun|]. split; [reflexivity|]. split; [reflexivity|].
  destruct (startup_guarantees cfg env setup Hrun)
    as (_ & _ & _ & _ & _ & _ & _ & Hresumed).
  exact (proj1 (Hresumed _ eq_refl)).
Defined.



End StartupMore.

(** ** The inputs of the training loop *)

Module LoopInputsFacts.
Import LoopInputs.

Lemma nth_error_map_seq {A : Type} (f : nat -> A) (n : nat) :
  forall start i v,
    nth_error (map f (seq start n)) i = Some v ->
    (i < n)%nat /\ v = f (start + i)%nat.
Proof.
  induction n as [|n IH]; intros start [|i] v H; simpl in H; try discriminate.
  - injection H as <-. split; [lia | now rewrite Nat.add_0_r].
  - destruct (IH (S start) i v H) as [Hi ->].
    split; [lia | f_equal; lia].
Qed.

Lemma nth_error_py_range (lo hi : Z) (i : nat) (v : Z) :
  nth_error (py_range lo hi) i = Some v ->
  v = lo + Z.of_nat i /\ lo <= v < hi.
Proof.
  unfold py_range. rewrite <- map_map. intros H.
  rewrite nth_error_map in H.
  destruct (nth_error (map Z.of_nat (seq 0 (Z.to_nat (hi - lo)))) i) as [j|] eqn:Hj;
    [|discriminate].
  injection H as <-.
  destruct (nth_error_map_seq Z.of_nat _ 0 i j Hj) as [Hi ->].
  cbn [Nat.add]. lia.
Qed.

Lemma nth_error_zip3 {A B C : Type} (a : list A) (b : list B) (c : list C) :
  forall i x y z,
    nth_error (zip3 a b c) i = Some (x, y, z) ->
    nth_error a i = Some x /\ nth_error b i = Some y /\ nth_error c i = Some z.
Proof.
  revert b c. induction a as [|x0 a IH]; intros [|y0 b] [|z0 c] i x y z H;
    try (destruct i; discriminate H).
  destruct i as [|i]; simpl in H.
  - injection H as <- <- <-. auto.
  - exact (IH b c i x y z H).
Qed.

Lemma length_zip3 {A B C : Type} (a : list A) (b : list B) (c : list C) :
  length (zip3 a b c) = Nat.min (length a) (Nat.min (length b) (length c)).
Proof.
  revert b c. induction a as [|x a IH]; intros [|y b] [|z c]; simpl; try lia.
  rewrite IH. reflexivity.
Qed.

Lemma length_py_range (lo hi : Z) : length (py_range lo hi) = Z.to_nat (hi - lo).
Proof. unfold py_range. now rewrite length_map, length_seq. Qed.

(** X6. Given a [u.prefetch_scalar] that hands the learning rates on as
    they come, the loop runs [min(total_steps - first_step, number of
    batches)] iterations; iteration [i] is step [first_step + 1 + i], no
    later than [total_steps], takes the [i]-th batch of the iterator and
    the learning rate [lr_fn(step - 1)]. *)
Theorem loop_inputs_aligned {Batch : Type} (lr_fn : Z -> Q)
    (prefetch_scalar : list Q -> list Q) (first_step total_steps : Z)
    (train_iter : list Batch) :
  (forall lrs, prefetch_scalar lrs = lrs) ->
  length (loop_inputs lr_fn prefetch_scalar first_step total_steps train_iter)
  = Nat.min (Z.to_nat (total_steps - first_step)) (length train_iter) /\
  forall i step batch lr,
    nth_error (loop_inputs lr_fn prefetch_scalar first_step total_steps train_iter) i
    = Some (step, batch, lr) ->
    step = first_step + 1 + Z.of_nat i /\
    first_step < step <= total_steps /\
    nth_error train_iter i = Some batch /\
    lr = lr_fn (step - 1).
Proof.
  intros Hprefetch. unfold loop_inputs, lr_iter. rewrite Hprefetch. split.
  - rewrite length_zip3, length_map, !length_py_range.
    replace (total_steps + 1 - (first_step + 1)) with (total_steps - first_step)
      by lia.
    lia.
  - intros i step batch lr H.
    destruct (nth_error_zip3 _ _ _ i step batch lr H) as (Hstep & Hbatch & Hlr).
    destruct (nth_error_py_range _ _ i step Hstep) as [-> Hrange].
    rewrite nth_error_map in Hlr.
    destruct (nth_error (py_range first_step total_steps) i) as [j|] eqn:Hj;
      [|discriminate].
    injection Hlr as <-.
    destruct (nth_error_py_range _ _ i j Hj) as [-> _].
    repeat split; try lia; try assumption.
    f_equal. lia.
Qed.

Lemma loop_inputs_aligned_witness :
  loop_inputs (fun step => inject_Z step / 10)%Q (fun lrs => lrs) 2 5
              ["a"; "b"; "c"; "d"]%string
  = [(3, "a"%string, (inject_Z 2 / 10)%Q);
     (4, "b"%string, (inject_Z 3 / 10)%Q);
     (5, "c"%string, (inject_Z 4 / 10)%Q)] /\
  length (loop_inputs (fun step => inject_Z step / 10)%Q (fun lrs => lrs) 2 5
                      ["a"; "b"; "c"; "d"]%string)
  = Nat.min (Z.to_nat (5 - 2)) 4.
Proof.
  split; [reflexivity|].
  exact (proj1 (loop_inputs_aligned (fun step => inject_Z step / 10)%Q
                  (fun lrs => lrs) 2 5 ["a"; "b"; "c"; "d"]%string
                  (fun lrs => eq_refl))).
Defined.

End LoopInputsFacts.

(** ** Steps and checkpoints of the training loop *)

Module TrainLoopMore.
Import TrainLoop.
Import LoopInputs.

Section Facts.

Variable cfg : Config.
Variable setup : Main.TrainSetup.
Variable itstime : Z -> option Z -> Z -> bool.

(** X7. Along a run the step counter starts at [first_step], grows by one
    per update and never passes [total_steps] (a run resumed at or beyond
    [total_steps] makes no update), however early the input iterators end
    the loop; and the saves started, counting the one the loop is waiting
    to start, never outnumber the updates made: no step is checkpointed
    twice. *)
Theorem loop_step_bounds (st : LoopState) :
  reachable cfg setup itstime st ->
  Main.setup_first_step setup <= step st /\
  step st <= Z.max (Main.setup_first_step setup) (Main.setup_total_steps setup) /\
  Z.of_nat (submitted st) + pending (ctl st)
  <= step st - Main.setup_first_step setup.
Proof.
  induction 1 as [|st st' _ IH Hstep].
  - cbn. lia.
  - destruct IH as (Hlo & Hhi & Hsaves).
    destruct Hstep as [st Hctl Hlt | st t Hctl _ | st t w Hctl _ _ _
                       | st t w Hctl _ _ | st t w Hctl _ _ | st Hctl Hge Hidle
                       | st Hctl Hidle | st w raised Hin];
      try (rewrite Hctl in Hsaves); cbn in Hsaves |- *;
      try (destruct (itstime _ _ _); cbn); lia.
Qed.

End Facts.

Lemma loop_step_bounds_witness :
  let st := after_update Scenario.every_step_config true
              (init_loop Scenario.three_step_setup) in
  reachable Scenario.every_step_config Scenario.three_step_setup Scenario.itstime st /\
  step st = 1 /\
  ctl st = Waiting 1 /\
  Z.of_nat (submitted st) + pending (ctl st) <= step st - 0.
Proof.
  intros st.
  assert (Hreach : reachable Scenario.every_step_config Scenario.three_step_setup
                     Scenario.itstime st).
  { eapply reach_step; [apply reach_init|].
    exact (update_step Scenario.every_step_config Scenario.three_step_setup
             Scenario.itstime (init_loop Scenario.three_step_setup)
             eq_refl eq_refl). }
  split; [exact Hreach|]. split; [reflexivity|]. split; [reflexivity|].
  exact (proj2 (proj2 (loop_step_bounds Scenario.every_step_config
                         Scenario.three_step_setup Scenario.itstime st
                         Hreach))).
Defined.

Section Due.

Variable cfg : Config.
Variable setup : Main.TrainSetup.
Variable itstime : Z -> option Z -> Z -> bool.

Lemma reachable_step_lo (st : LoopState) :
  reachable cfg setup itstime st -> Main.setup_first_step setup <= step st.
Proof.
  induction 1 as [|st st' _ IH Hstep]; [cbn; lia|].
  destruct Hstep; cbn; lia.
Qed.

Lemma waiting_is_due (st : LoopState) :
  reachable cfg setup itstime st ->
  forall t,
    ctl st = Waiting t ->
    Main.setup_first_step setup < step st <= Main.setup_total_steps setup /\
    itstime (step st) (checkpoint_steps cfg) (Main.setup_total_steps setup) = true.
Proof.
  induction 1 as [|st st' Hreach IH Hstep]; intros t Hctl.
  - discriminate.
  - pose proof (reachable_step_lo st Hreach) as Hlo.
    destruct Hstep; cbn in Hctl; try discriminate.
    + cbn [step after_update].
      destruct (itstime (step st + 1) (checkpoint_steps cfg)
                        (Main.setup_total_steps setup)) eqn:Hdue;
        [|discriminate].
      split; [lia | reflexivity].
    + cbn [step complete]. apply (IH t Hctl).
Qed.

(** X18. The checkpoint block is entered only at a step for which
    [u.itstime] said so.  Hence a run none of whose steps is due for a
    checkpoint starts no save at all: [checkpoint_writer] stays [None],
    nothing is ever in flight, and the run cannot end in the wait. *)
Theorem saves_only_when_due (st : LoopState) :
  reachable cfg setup itstime st ->
  (forall t,
      ctl st = Waiting t ->
      Main.setup_first_step setup < step st <= Main.setup_total_steps setup /\
      itstime (step st) (checkpoint_steps cfg) (Main.setup_total_steps setup) = true) /\
  ((forall s,
       Main.setup_first_step setup < s <= Main.setup_total_steps setup ->
       itstime s (checkpoint_steps cfg) (Main.setup_total_steps setup) = false) ->
   submitted st = 0%nat /\
   in_flight st = [] /\
   checkpoint_writer st = None /\
   (ctl st = AtStep \/ ctl st = Finished)).
Proof.
  intros Hreach. split; [exact (waiting_is_due st Hreach)|].
  intros Hnever.
  induction Hreach as [|st st' Hreach IH Hstep].
  - cbn. auto.
  - destruct IH as (Hsub & Hfl & Hw & Hctl).
    destruct Hstep as [st Hat Hlt | st t Hc _ | st t w Hc _ _ _
                       | st t w Hc _ _ | st t w Hc _ _ | st Hat Hge Hidle
                       | st Hat Hidle | st w raised Hin];
      try (exfalso; destruct Hctl; congruence).
    + pose proof (reachable_step_lo st Hreach) as Hlo.
      cbn. rewrite (Hnever (step st + 1)) by lia. auto.
    + cbn. auto.
    + cbn. auto.
    + rewrite Hfl in Hin. destruct Hin.
Qed.

End Due.

Lemma saves_only_when_due_witness :
  let st := after_update Scenario.every_step_config true
              (init_loop Scenario.three_step_setup) in
  reachable Scenario.every_step_config Scenario.three_step_setup Scenario.itstime st /\
  ctl st = Waiting 1 /\
  Scenario.itstime (step st) (Some 1) 3 = true.
Proof.
  intros st.
  assert (Hreach : reachable Scenario.every_step_config Scenario.three_step_setup
                     Scenario.itstime st).
  { eapply reach_step; [apply reach_init|].
    exact (update_step Scenario.every_step_config Scenario.three_step_setup
             Scenario.itstime (init_loop Scenario.three_step_setup)
             eq_refl eq_refl). }
  split; [exact Hreach|]. split; [reflexivity|].
  exact (proj2 (proj1 (saves_only_when_due Scenario.every_step_config
                         Scenario.three_step_setup Scenario.itstime st Hreach)
                      1 eq_refl)).
Defined.

End TrainLoopMore.

(** ** The gradient norm and its clipping *)

Module GradClipFacts.
Import GradClip.

Lemma vdot_scale (f : Q) (p : list Q) :
  (vdot (map (fun x => f * x) p) (map (fun x => f * x) p) == f * f * vdot p p)%Q.
Proof.
  unfold vdot. induction p as [|x p IH]; simpl.
  - ring.
  - rewrite IH. ring.
Qed.

Lemma sum_squares_scale (f : Q) (g : list (list Q)) :
  (sum_squares (map (map (fun x => f * x)) g) == f * f * sum_squares g)%Q.
Proof.
  unfold sum_squares. induction g as [|p g IH]; simpl.
  - ring.
  - rewrite IH, vdot_scale. ring.
Qed.

Lemma scale_by_one (f : Q) (g : list (list Q)) :
  (f == 1)%Q -> Forall2 (Forall2 Qeq) (map (map (fun x => f * x)%Q) g) g.
Proof.
  intros Hf. induction g as [|p g IH]; simpl; constructor; [|exact IH].
  clear IH. induction p as [|x p IH]; simpl; constructor; [|exact IH].
  rewrite Hf. ring.
Qed.

Section Facts.

Variable sqrt : Q -> Q.

(** X8. With a positive [grad_clip_norm] and a positive measured norm,
    whatever [grad_accum_steps] is: the norm is measured (the clipping never
    reads an unbound [l2_g]) and reported; the gradient is resized by
    [min(norm, grad_clip_norm) / norm], stated on the sums of squares
    without a division; when the measured norm is not below the true one,
    the gradient handed to the optimizer has a norm of at most
    [min(norm, grad_clip_norm)]; and a gradient measured within the limit
    is handed on unchanged. *)
Theorem clip_limits_norm (cfg : Config) (clip : Q) (g : list (list Q)) :
  let norm := sqrt (sum_squares g) in
  (0 < clip)%Q ->
  (0 < norm)%Q ->
  exists g',
    measure_and_clip sqrt cfg (Some clip) g = Bound (Some norm, g') /\
    (sum_squares g' * (norm * norm)
     == sum_squares g * (Qmin norm clip * Qmin norm clip))%Q /\
    ((sum_squares g <= norm * norm)%Q ->
     (sum_squares g' <= Qmin norm clip * Qmin norm clip)%Q) /\
    ((norm <= clip)%Q -> Forall2 (Forall2 Qeq) g' g).
Proof.
  intros norm Hclip Hnorm.
  assert (Htruthy : truthyQ (Some clip) = true).
  { cbn. apply negb_true_iff. destruct (Qeq_bool clip 0) eqn:Hq; [|reflexivity].
    apply Qeq_bool_iff in Hq. rewrite Hq in Hclip. discriminate Hclip. }
  unfold measure_and_clip. rewrite Htruthy, orb_true_r. fold norm.
  eexists. split; [reflexivity|].
  assert (Hnz : ~ (norm == 0)%Q).
  { intros H0. rewrite H0 in Hnorm. discriminate Hnorm. }
  set (g_factor := Qmin 1 (clip / norm)).
  assert (Hfactor : (g_factor * norm == Qmin norm clip)%Q /\
                    ((norm <= clip)%Q -> (g_factor == 1)%Q)).
  { destruct (Qlt_le_dec clip norm) as [Hbig | Hsmall].
    - assert (Hf : (g_factor == clip / norm)%Q).
      { apply Q.min_r. apply Qle_shift_div_r; [exact Hnorm|].
        rewrite Qmult_1_l. now apply Qlt_le_weak. }
      split.
      + rewrite Hf, (Q.min_r norm clip) by now apply Qlt_le_weak.
        field. exact Hnz.
      + intros Hle. exfalso. exact (Qlt_not_le _ _ Hbig Hle).
    - assert (Hf : (g_factor == 1)%Q).
      { apply Q.min_l. apply Qle_shift_div_l; [exact Hnorm|].
        now rewrite Qmult_1_l. }
      split; [|intros _; exact Hf].
      rewrite Hf, (Q.min_l norm clip) by exact Hsmall. ring. }
  destruct Hfactor as [Hscaled Hone].
  assert (Hsquares : (sum_squares (map (map (fun p => g_factor * p)) g)
                      == g_factor * g_factor * sum_squares g)%Q)
    by apply sum_squares_scale.
  split; [|split].
  - rewrite Hsquares, <- Hscaled. ring.
  - intros Hover. rewrite Hsquares, <- Hscaled.
    setoid_replace (g_factor * norm * (g_factor * norm))%Q
      with (g_factor * g_factor * (norm * norm))%Q by ring.
    rewrite (Qmult_comm (g_factor * g_factor) (sum_squares g)),
      (Qmult_comm (g_factor * g_factor) (norm * norm)).
    apply Qmult_le_compat_r; [exact Hover|].
    destruct (Qlt_le_dec g_factor 0) as [Hneg | Hpos].
    + setoid_replace (g_factor * g_factor)%Q
        with ((- g_factor) * (- g_factor))%Q by ring.
      apply Qmult_le_0_compat;
        apply (Qopp_le_compat g_factor 0), Qlt_le_weak, Hneg.
    + now apply Qmult_le_0_compat.
  - intros Hle. apply scale_by_one, Hone, Hle.
Qed.

End Facts.

(** X8 on the gradient (1, 1) with the limit 1 and with accumulation over
    two sub-batches, the norm being measured as 3/2: the gradient becomes
    (2/3, 2/3), whose sum of squares is below 1. *)
Lemma clip_limits_norm_witness :
  let cfg :=
    {| checkpoint_steps := None; keep_checkpoint_steps := None;
       checkpoint_timeout := None; batch_size := 4096; batch_size_eval := None;
       num_epochs := None; total_steps := Some 10; resume := None;
       model_init := None; grad_accum_steps := Some 2; weight_decay := WdAbsent;
       weight_decay_decouple := None; lr_base := 1 # 1000 |} in
  exists g',
    measure_and_clip Samples.sqrt_table cfg (Some 1%Q) [[1]; [1]]%Q
    = Bound (Some (3 # 2)%Q, g') /\
    map (map Qred) g' = [[2 # 3]; [2 # 3]]%Q /\
    (sum_squares g' <= 1)%Q.
Proof.
  intros cfg.
  destruct (clip_limits_norm Samples.sqrt_table cfg 1%Q [[1]; [1]]%Q
              eq_refl eq_refl)
    as (g' & Hrun & _ & Hwithin & _).
  exists g'. split; [exact Hrun|].
  assert (Hval : measure_and_clip Samples.sqrt_table cfg (Some 1%Q) [[1]; [1]]%Q
                 = Bound (Some (3 # 2)%Q,
                          map (map (fun p => (Qmin 1 (1 / (3 # 2)) * p)%Q))
                              [[1]; [1]]%Q))
    by reflexivity.
  split.
  - rewrite Hval in Hrun. injection Hrun as <-. vm_compute. reflexivity.
  - apply (Qle_trans _ _ _ (Hwithin ltac:(discriminate))).
    vm_compute. discriminate.
Defined.

End GradClipFacts.

(** ** More on weight decay *)

Module WeightDecayMore.
Import WeightDecay.

(** X9. As long as [sched_m * wd] lies between 0 and 1, [decay_fn] keeps
    the shape of the array, moves no entry across zero and makes no entry
    larger in magnitude. *)
Theorem decay_fn_shrinks (sched_m wd : Q) (v : list Q) :
  (0 <= sched_m * wd)%Q ->
  (sched_m * wd <= 1)%Q ->
  length (decay_fn sched_m v wd) = length v /\
  Forall2 (fun x y => (Qabs y <= Qabs x)%Q /\ (0 <= x * y)%Q)
          v (decay_fn sched_m v wd).
Proof.
  intros Hlo Hhi. unfold decay_fn. split; [apply length_map|].
  assert (Ha0 : (0 <= 1 - sched_m * wd)%Q).
  { apply (Qplus_le_l _ _ (sched_m * wd)). ring_simplify. exact Hhi. }
  assert (Ha1 : (1 - sched_m * wd <= 1)%Q).
  { apply (Qplus_le_l _ _ (sched_m * wd)). ring_simplify.
    apply (Qplus_le_r _ _ (-(1))). ring_simplify. exact Hlo. }
  induction v as [|x v IH]; simpl; constructor; [|exact IH].
  split.
  - rewrite Qabs_Qmult, (Qabs_pos _ Ha0).
    rewrite <- (Qmult_1_l (Qabs x)) at 2.
    apply Qmult_le_compat_r; [exact Ha1 | apply Qabs_nonneg].
  - setoid_replace (x * ((1 - sched_m * wd) * x))%Q
      with ((1 - sched_m * wd) * (x * x))%Q by ring.
    apply Qmult_le_0_compat; [exact Ha0|].
    destruct (Qlt_le_dec x 0) as [Hneg | Hpos].
    + setoid_replace (x * x)%Q with ((- x) * (- x))%Q by ring.
      apply Qmult_le_0_compat; apply (Qopp_le_compat x 0), Qlt_le_weak, Hneg.
    + now apply Qmult_le_0_compat.
Qed.

Lemma decay_fn_shrinks_witness :
  Forall2 (fun x y => (Qabs y <= Qabs x)%Q /\ (0 <= x * y)%Q)
          [2; -4; 0]%Q (decay_fn (1 # 2) [2; -4; 0]%Q (1 # 10)).
Proof.
  apply (decay_fn_shrinks (1 # 2) (1 # 10) [2; -4; 0]%Q); discriminate.
Defined.

(** X10. When [weight_decay] is absent, zero or an empty list of rules,
    the decay step returns the parameters as they are, whatever the
    learning rate, whatever the matcher and whichever rule would decide
    among several. *)
Theorem no_weight_decay_configured (re_match : string -> string -> bool)
    (choose : string * Q -> list (string * Q) -> string * Q)
    (cfg : Config) (lr : Q) (target : Tree) :
  weight_decay cfg = WdAbsent \/
  (exists wd, weight_decay cfg = WdNumber wd /\ (wd == 0)%Q) \/
  weight_decay cfg = WdRules [] ->
  apply_weight_decay re_match choose cfg lr target = target.
Proof.
  intros Hcfg.
  assert (Hrules : decay_rules cfg = []).
  { unfold decay_rules.
    destruct Hcfg as [-> | [(wd & -> & Hwd) | ->]]; try reflexivity.
    apply Qeq_bool_iff in Hwd. now rewrite Hwd. }
  unfold apply_weight_decay, tree_map_with_regex. rewrite Hrules.
  induction target as [|[name v] target IH]; [reflexivity|].
  cbn [map matching_rules filter]. f_equal. exact IH.
Qed.

Lemma no_weight_decay_configured_witness :
  let cfg :=
    {| checkpoint_steps := None; keep_checkpoint_steps := None;
       checkpoint_timeout := None; batch_size := 4096; batch_size_eval := None;
       num_epochs := None; total_steps := Some 10; resume := None;
       model_init := None; grad_accum_steps := None;
       weight_decay := WdNumber (0 # 5);
       weight_decay_decouple := None; lr_base := 1 # 1000 |} in
  apply_weight_decay re_fullmatch first_match cfg (1 # 2)
    [("head/kernel"%string, [2; 4]%Q)]
  = [("head/kernel"%string, [2; 4]%Q)].
Proof.
  intros cfg.
  apply (no_weight_decay_configured re_fullmatch first_match cfg).
  right. left. exists (0 # 5). split; reflexivity.
Defined.

End WeightDecayMore.

(** ** More on validation *)

Module EvaluationMore.
Import Evaluation.



Lemma Qsum_between {A : Type} (f g : A -> Q) (l : list A) :
  (forall a, In a l -> (0 <= f a)%Q /\ (f a <= g a)%Q) ->
  (0 <= Qsum (map f l))%Q /\ (Qsum (map f l) <= Qsum (map g l))%Q.
Proof.
  induction l as [|a l IH]; intros H; simpl.
  - split; apply Qle_refl.
  - destruct (H a (or_introl eq_refl)) as [H0 H1].
    destruct IH as [IH0 IH1]; [intros b Hb; apply H; now right|].
    split.
    + setoid_replace 0%Q with (0 + 0)%Q by ring. now apply Qplus_le_compat.
    + now apply Qplus_le_compat.
Qed.

Section Facts.

Context {Img : Type}.
Variable model_logits : Img -> list Q.
Variable loss_fn : list Q -> list Q -> Q.

(** The two ratios the evaluation of a split returns, over batches of
    equal per-device size with a non-zero sum of masks. *)
Lemma split_ratios (val_steps : Z) (val_iter : list (list (list (Example Img)))) :
  let seen := entries val_steps val_iter in
  Forall rectangular (firstn (Z.to_nat val_steps) val_iter) ->
  ~ (Qsum (map eval_mask seen) == 0)%Q ->
  exists acc loss,
    evaluate_split model_logits loss_fn val_steps val_iter
    = Ok (NpFloat acc, NpFloat loss) /\
    (acc == Qsum (map (fun e => top1_correct model_logits e * eval_mask e) seen)
            / Qsum (map eval_mask seen))%Q.
Proof.
  intros seen Hrect Hcount.
  set (evaluated := firstn (Z.to_nat val_steps) val_iter) in *.
  pose (sums := fun b : list (list (Example Img)) =>
                  (Qsum (map (fun e => top1_correct model_logits e * eval_mask e)
                             (concat b)),
                   Qsum (map (fun e => example_loss model_logits loss_fn e
                                       * eval_mask e) (concat b)),
                   Qsum (map eval_mask (concat b)))%Q).
  assert (Hne : evaluated <> []).
  { intros Hnil. apply Hcount. unfold seen, entries. fold evaluated.
    rewrite Hnil. reflexivity. }
  assert (Hsums : Forall (fun b =>
             let '(ncorrect, loss, n) := evaluation_fn model_logits loss_fn b in
             let '(sc, sl, sn) := sums b in
             (Qsum ncorrect == sc)%Q /\ (Qsum loss == sl)%Q /\ (Qsum n == sn)%Q)
           evaluated).
  { eapply Forall_impl; [|exact Hrect].
    intros b Hb. exact (EvaluationFacts.batch_sums model_logits loss_fn b Hb). }
  destruct (EvaluationFacts.fold_eval_start model_logits loss_fn sums evaluated
              Hne Hsums)
    as (c & l & m & Hfold & Hc & _ & Hm).
  unfold sums in Hc, Hm. cbn [fst snd] in Hc, Hm.
  rewrite EvaluationFacts.Qsum_per_batch in Hc, Hm.
  assert (Hnz : Qeq_bool m 0 = false).
  { destruct (Qeq_bool m 0) eqn:Hq; [|reflexivity].
    apply Qeq_bool_iff in Hq. exfalso. apply Hcount.
    exact (Qeq_trans _ _ _ (Qeq_sym _ _ Hm) Hq). }
  exists (c / m)%Q, (l / m)%Q. split.
  - unfold evaluate_split. fold evaluated. rewrite Hfold.
    cbn [py_div]. rewrite Hnz. reflexivity.
  - exact (Qdiv_comp _ _ Hc _ _ Hm).
Qed.

(** X12. With masks and labels that are zero or one, batches of equal
    per-device size and at least one valid entry, the evaluation of a
    split returns, and the prec@1 it measures lies between 0 and 1. *)
Theorem prec_at_1_is_a_fraction (val_steps : Z)
    (val_iter : list (list (list (Example Img)))) :
  let seen := entries val_steps val_iter in
  Forall rectangular (firstn (Z.to_nat val_steps) val_iter) ->
  Forall binary seen ->
  ~ (count is_valid seen == 0)%Q ->
  exists acc loss,
    evaluate_split model_logits loss_fn val_steps val_iter
    = Ok (NpFloat acc, NpFloat loss) /\
    (0 <= acc)%Q /\ (acc <= 1)%Q.
Proof.
  intros seen Hrect Hbin Hcount.
  rewrite Forall_forall in Hbin.
  assert (Hn : (Qsum (map eval_mask seen) == count is_valid seen)%Q).
  { unfold count. rewrite <- EvaluationFacts.Qsum_indicator.
    apply Qsum_map_ext. intros e He.
    apply EvaluationFacts.eval_mask_indicator, Hbin, He. }
  assert (Hnz : ~ (Qsum (map eval_mask seen) == 0)%Q).
  { intros H0. apply Hcount. now rewrite <- Hn. }
  destruct (split_ratios val_steps val_iter Hrect Hnz)
    as (acc & loss & Hrun & Hacc).
  fold seen in Hacc.
  exists acc, loss. split; [exact Hrun|].
  destruct (Qsum_between
              (fun e => top1_correct model_logits e * eval_mask e)%Q eval_mask seen)
    as [Hc0 Hc1].
  { intros e He.
    rewrite (EvaluationFacts.eval_mask_indicator e (Hbin e He)),
            (EvaluationFacts.top1_indicator model_logits e (Hbin e He)).
    destruct (is_valid e), (is_correct model_logits e); split; discriminate. }
  assert (Hpos : (0 < Qsum (map eval_mask seen))%Q).
  { apply Qle_lt_or_eq in Hc0. destruct Hc0 as [Hlt | Heq].
    - eapply Qlt_le_trans; [exact Hlt | exact Hc1].
    - destruct (Qsum_between eval_mask eval_mask seen) as [Hm0 _].
      { intros e He. rewrite (EvaluationFacts.eval_mask_indicator e (Hbin e He)).
        destruct (is_valid e); split; discriminate. }
      apply Qle_lt_or_eq in Hm0. destruct Hm0 as [Hlt | H0]; [exact Hlt|].
      exfalso. apply Hnz. now symmetry. }
  rewrite Hacc. split.
  - apply Qle_shift_div_l; [exact Hpos|]. now rewrite Qmult_0_l.
  - apply Qle_shift_div_r; [exact Hpos|]. now rewrite Qmult_1_l.
Qed.

End Facts.

Lemma prec_at_1_is_a_fraction_witness :
  exists acc loss,
    evaluate_split (fun logits => logits) Scenario.squared_loss 1
                   [Scenario.eval_batch_10]
    = Ok (NpFloat acc, NpFloat loss) /\
    (0 <= acc)%Q /\ (acc <= 1)%Q.
Proof.
  apply (prec_at_1_is_a_fraction (fun logits => logits) Scenario.squared_loss 1
           [Scenario.eval_batch_10]).
  - apply Forall_cons; [|apply Forall_nil].
    exists 5%nat. EvaluationFacts.zero_or_one.
  - vm_compute. EvaluationFacts.zero_or_one.
  - vm_compute. discriminate.
Defined.

End EvaluationMore.

(** ** The dropout ensemble evaluator *)

Module EnsembleFacts.
Import Ensemble.

(** X13. The evaluator goes on only with one accelerator at most and a
    non-zero batch size: more than one core is a [ValueError], a product
    [eval_batch_size * num_cores] of zero (no core, or an empty batch) a
    [ZeroDivisionError].  Otherwise the batch size is that product and,
    when it is positive, [steps_per_eval] whole batches fit in the test
    set, the examples left over, fewer than one batch, being evaluated by
    no step. *)
Theorem eval_setup_steps (flags : Flags) (num_examples : Z) :
  (1 < num_cores flags ->
   exists msg, eval_setup flags num_examples = Failed (Builtin (ValueError msg))) /\
  (num_cores flags <= 1 ->
   eval_batch_size flags * num_cores flags = 0 ->
   eval_setup flags num_examples = Failed (Builtin ZeroDivisionError)) /\
  (forall batch steps,
      eval_setup flags num_examples = Returned (batch, steps) ->
      num_cores flags <= 1 /\
      batch = eval_batch_size flags * num_cores flags /\
      batch <> 0 /\
      (0 < batch ->
       steps * batch <= num_examples < (steps + 1) * batch)).
Proof.
  unfold eval_setup. split; [|split].
  - intros Hcores. apply Z.ltb_lt in Hcores. rewrite Hcores. eexists. reflexivity.
  - intros Hcores Hzero. apply Z.ltb_ge in Hcores. rewrite Hcores, Hzero. reflexivity.
  - intros batch steps Hrun.
    destruct (1 <? num_cores flags) eqn:Hcores; [discriminate|].
    destruct (eval_batch_size flags * num_cores flags =? 0) eqn:Hz; [discriminate|].
    injection Hrun as <- <-.
    apply Z.ltb_ge in Hcores. apply Z.eqb_neq in Hz.
    split; [exact Hcores|]. split; [reflexivity|]. split; [exact Hz|].
    intros Hpos.
    pose proof (Z.mul_div_le num_examples _ Hpos).
    pose proof (Z.mul_succ_div_gt num_examples _ Hpos). lia.
Qed.

Lemma eval_setup_steps_witness :
  eval_setup {| output_dir := "/tmp/out"; eval_batch_size := 32; num_cores := 1 |}
             42670
  = Returned (32, 1333) /\
  1333 * 32 <= 42670 < (1333 + 1) * 32.
Proof.
  split; [reflexivity|].
  exact (proj2 (proj2 (proj2
           (proj2 (proj2 (eval_setup_steps
                            {| output_dir := "/tmp/out"; eval_batch_size := 32;
                               num_cores := 1 |} 42670))
                  32 1333 eq_refl)))
           eq_refl).
Defined.

(** *** The names of the members' files are all different *)

Lemma string_length_append (s t : string) :
  String.length (s ++ t) = (String.length s + String.length t)%nat.
Proof.
  induction s as [|c s IH]; simpl; [reflexivity | now rewrite IH].
Qed.

Lemma string_append_cancel_l (a s t : string) :
  (a ++ s)%string = (a ++ t)%string -> s = t.
Proof.
  induction a as [|c a IH]; simpl; intros H; [exact H|].
  injection H as H. exact (IH H).
Qed.

Lemma string_append_cancel_r (t : string) :
  forall s1 s2 : string, (s1 ++ t)%string = (s2 ++ t)%string -> s1 = s2.
Proof.
  induction s1 as [|c1 s1 IH]; intros [|c2 s2] H; simpl in H.
  - reflexivity.
  - exfalso. apply (f_equal String.length) in H.
    simpl in H. rewrite string_length_append in H. lia.
  - exfalso. apply (f_equal String.length) in H.
    simpl in H. rewrite string_length_append in H. lia.
  - injection H as -> H. f_equal. exact (IH s2 H).
Qed.

Lemma digits_not_absolute (member : nat) :
  String.prefix "/" (NilEmpty.string_of_uint (Nat.to_uint member) ++ ".npy") = false.
Proof.
  destruct (Nat.to_uint member); reflexivity.
Qed.

Lemma member_filename_inj (flags : Flags) (m1 m2 : nat) :
  member_filename flags m1 = member_filename flags m2 -> m1 = m2.
Proof.
  unfold member_filename, Main.path_join.
  rewrite !digits_not_absolute. intros H.
  assert (Hd : (NilEmpty.string_of_uint (Nat.to_uint m1) ++ ".npy")%string
               = (NilEmpty.string_of_uint (Nat.to_uint m2) ++ ".npy")%string).
  { destruct (String.eqb (output_dir flags) EmptyString
              || Main.ends_with_slash (output_dir flags)).
    - exact (string_append_cancel_l _ _ _ H).
    - apply string_append_cancel_l in H.
      exact (string_append_cancel_l "/" _ _ H). }
  apply string_append_cancel_r in Hd.
  apply Unsigned.to_uint_inj.
  pose proof (NilEmpty.usu (Nat.to_uint m1)) as H1.
  pose proof (NilEmpty.usu (Nat.to_uint m2)) as H2.
  rewrite Hd in H1. congruence.
Qed.

(** *** The prediction files *)

Section Cache.

Context {Img : Type}.
Variable flags : Flags.
Variable steps_per_eval : Z.
Variable dataset_test : list (Batch Img).

Abbreviation name := (member_filename flags).
Abbreviation write_from := (write_predictions_from flags steps_per_eval dataset_test).

Lemma write_member_cases (member : nat) (model : Model Img) (files files' : Files) :
  write_member flags steps_per_eval dataset_test member model files
  = Returned files' ->
  (files (name member) <> None /\ files' = files) \/
  (files (name member) = None /\
   exists logits,
     predict model steps_per_eval dataset_test = Returned logits /\
     files' = save files (name member) logits).
Proof.
  unfold write_member.
  destruct (files (name member)) as [old|] eqn:Hold.
  - intros [= <-]. left. split; [discriminate | reflexivity].
  - destruct (predict model steps_per_eval dataset_test) as [logits|e];
      cbn [and_then]; [|discriminate].
    intros [= <-]. right. split; [reflexivity|]. exists logits. auto.
Qed.

Lemma save_same (files : Files) (path : string) (logits : list Q) :
  save files path logits path = Some logits.
Proof. unfold save. now rewrite String.eqb_refl. Qed.

Lemma save_other (files : Files) (path p : string) (logits : list Q) :
  p <> path -> save files path logits p = files p.
Proof.
  intros Hp. unfold save. apply String.eqb_neq in Hp. now rewrite Hp.
Qed.

(** What the loop over the members, started at the member numbered
    [start], has done to the files when it returns. *)
Lemma write_from_spec (models : list (Model Img)) :
  forall (start : nat) (files files' : Files),
    write_from start models files = Returned files' ->
    (forall p v, files p = Some v -> files' p = Some v) /\
    (forall i, (i < length models)%nat -> files' (name (start + i)) <> None) /\
    (forall p,
        (forall i, (i < length models)%nat -> p <> name (start + i)) ->
        files' p = files p) /\
    (forall i model,
        nth_error models i = Some model ->
        files (name (start + i)) = None ->
        exists logits,
          predict model steps_per_eval dataset_test = Returned logits /\
          files' (name (start + i)) = Some logits).
Proof.
  induction models as [|model models IH]; intros start files files' Hrun.
  - injection Hrun as <-. repeat split; auto.
    + intros i Hi. simpl in Hi. lia.
    + intros [|i] m Hm; discriminate Hm.
  - cbn [write_predictions_from] in Hrun.
    destruct (write_member flags steps_per_eval dataset_test start model files)
      as [files1|e] eqn:Hfirst; cbn [and_then] in Hrun; [|discriminate].
    destruct (IH (S start) files1 files' Hrun) as (Hkeep & Hall & Hother & Hfresh).
    assert (Hkeep1 : forall p v, files p = Some v -> files1 p = Some v).
    { intros p v Hp.
      destruct (write_member_cases start model files files1 Hfirst)
        as [[_ ->] | (Hnone & logits & _ & ->)]; [exact Hp|].
      rewrite save_other; [exact Hp|]. intros ->. congruence. }
    assert (Hhere : files1 (name start) <> None).
    { destruct (write_member_cases start model files files1 Hfirst)
        as [[Hsome ->] | (_ & logits & _ & ->)]; [exact Hsome|].
      rewrite save_same. discriminate. }
    split; [|split; [|split]].
    + intros p v Hp. apply Hkeep, Hkeep1, Hp.
    + intros [|i] Hi.
      * rewrite Nat.add_0_r.
        destruct (files1 (name start)) as [v|] eqn:Hv; [|contradiction].
        rewrite (Hkeep _ _ Hv). discriminate.
      * replace (start + S i)%nat with (S start + i)%nat by lia.
        apply Hall. simpl in Hi. lia.
    + intros p Hp. rewrite Hother.
      * destruct (write_member_cases start model files files1 Hfirst)
          as [[_ ->] | (_ & logits & _ & ->)]; [reflexivity|].
        apply save_other. specialize (Hp 0%nat ltac:(simpl; lia)).
        now rewrite Nat.add_0_r in Hp.
      * intros i Hi. replace (S start + i)%nat with (start + S i)%nat by lia.
        apply Hp. simpl. lia.
    + intros [|i] m Hm Hnone.
      * injection Hm as <-. rewrite Nat.add_0_r in Hnone |- *.
        destruct (write_member_cases start model files files1 Hfirst)
          as [[Hsome _] | (_ & logits & Hpred & ->)]; [contradiction|].
        exists logits. split; [exact Hpred|].
        apply Hkeep, save_same.
      * replace (start + S i)%nat with (S start + i)%nat in * by lia.
        apply (Hfresh i m Hm).
        destruct (write_member_cases start model files files1 Hfirst)
          as [[_ ->] | (_ & logits & _ & ->)]; [exact Hnone|].
        rewrite save_other; [exact Hnone|].
        intros Heq. apply member_filename_inj in Heq. lia.
Qed.

Lemma load_from_present (files : Files) :
  forall (count start : nat),
    (forall i, (i < count)%nat -> files (name (start + i)) <> None) ->
    exists rows,
      load_from flags files start count = Returned rows /\
      length rows = count /\
      forall i, (i < count)%nat -> files (name (start + i)) = nth_error rows i.
Proof.
  induction count as [|count IH]; intros start Hall.
  - exists []. repeat split. intros i Hi. lia.
  - cbn [load_from].
    destruct (files (name start)) as [logits|] eqn:Hhere.
    + destruct (IH (S start)) as (rows & Hrows & Hlen & Hnth).
      { intros i Hi. replace (S start + i)%nat with (start + S i)%nat by lia.
        apply Hall. lia. }
      rewrite Hrows. cbn [and_then].
      exists (logits :: rows). split; [reflexivity|]. split; [simpl; lia|].
      intros [|i] Hi.
      * rewrite Nat.add_0_r. exact Hhere.
      * replace (start + S i)%nat with (S start + i)%nat by lia.
        apply Hnth. lia.
    + exfalso. apply (Hall 0%nat ltac:(lia)). now rewrite Nat.add_0_r.
Qed.

(** X14. When the loop over the members returns, every member has its
    prediction file, so that reading the files back finds them all, one
    row per member in order; a file that was there before holds what it
    held, and no file but the members' own has been touched. *)
Theorem predictions_are_cached (models : list (Model Img)) (files files' : Files) :
  write_predictions flags steps_per_eval dataset_test models files
  = Returned files' ->
  (forall member, (member < length models)%nat -> files' (name member) <> None) /\
  (forall p v, files p = Some v -> files' p = Some v) /\
  (forall p,
      (forall member, (member < length models)%nat -> p <> name member) ->
      files' p = files p) /\
  exists rows,
    load_predictions flags files' (length models) = Returned rows /\
    length rows = length models /\
    forall member,
      (member < length models)%nat -> files' (name member) = nth_error rows member.
Proof.
  intros Hrun.
  destruct (write_from_spec models 0 files files' Hrun)
    as (Hkeep & Hall & Hother & _).
  split; [exact Hall|]. split; [exact Hkeep|]. split; [exact Hother|].
  exact (load_from_present files' (length models) 0 Hall).
Qed.



End Cache.

Lemma firstn_skipn_concat {A : Type} (k : nat) (rows : list (list A)) :
  Forall (fun r => length r = k) rows ->
  forall i row,
    nth_error rows i = Some row ->
    firstn k (skipn (i * k) (concat rows)) = row.
Proof.
  induction 1 as [|r rows Hr _ IH]; intros [|i] row Hnth; try discriminate.
  - injection Hnth as <-. cbn [Nat.mul skipn concat].
    rewrite firstn_app, Hr, Nat.sub_diag, firstn_O, app_nil_r.
    rewrite <- Hr. apply firstn_all.
  - cbn [concat]. rewrite skipn_app, Hr.
    replace (S i * k - k)%nat with (i * k)%nat by lia.
    rewrite skipn_all2 by lia. cbn [app]. exact (IH i row Hnth).
Qed.

Lemma length_concat_rows {A : Type} (k : nat) (rows : list (list A)) :
  Forall (fun r => length r = k) rows ->
  length (concat rows) = (length rows * k)%nat.
Proof.
  induction 1 as [|r rows Hr _ IH]; [reflexivity|].
  cbn [concat length]. rewrite length_app, Hr, IH. lia.
Qed.

(** A window of the concatenation of rows of equal length is a row. *)
Lemma py_slice_concat {A : Type} (k : nat) (rows : list (list A)) (i : nat)
    (row : list A) :
  Forall (fun r => length r = k) rows ->
  nth_error rows i = Some row ->
  py_slice (concat rows) (Z.of_nat i * Z.of_nat k) ((Z.of_nat i + 1) * Z.of_nat k)
  = row.
Proof.
  intros Hrows Hnth.
  assert (Hi : (i < length rows)%nat) by (apply nth_error_Some; congruence).
  unfold py_slice, slice_index. rewrite (length_concat_rows k rows Hrows).
  replace (Z.of_nat i * Z.of_nat k <? 0) with false
    by (symmetry; apply Z.ltb_ge; nia).
  replace ((Z.of_nat i + 1) * Z.of_nat k <? 0) with false
    by (symmetry; apply Z.ltb_ge; nia).
  rewrite !Z.min_l by nia.
  replace (Z.to_nat ((Z.of_nat i + 1) * Z.of_nat k - Z.of_nat i * Z.of_nat k))
    with k by nia.
  replace (Z.to_nat (Z.of_nat i * Z.of_nat k)) with (i * k)%nat by nia.
  exact (firstn_skipn_concat k rows Hrows i row Hnth).
Qed.

Section Align.

Context {Img : Type}.
Variable flags : Flags.
Variable steps_per_eval : Z.
Variable dataset_test : list (Batch Img).

(** X16. The predictions a run computes for a member line up with the
    test set: when the model gives one logit per image and each of the
    [steps_per_eval] batches has [eval_batch_size] images, the window
    [step * eval_batch_size : (step + 1) * eval_batch_size] of the member's
    file, which the evaluation loop pairs with the labels of batch [step],
    is the model's output on the images of that batch. *)
Theorem cached_logits_align (models : list (Model Img)) (files files' : Files)
    (member : nat) (model : Model Img) (eval_batch_size : Z) :
  0 < eval_batch_size ->
  write_predictions flags steps_per_eval dataset_test models files
  = Returned files' ->
  nth_error models member = Some model ->
  files (member_filename flags member) = None ->
  (forall images, length (model images) = length images) ->
  (forall inputs,
      In inputs (firstn (Z.to_nat steps_per_eval) dataset_test) ->
      Z.of_nat (length (features inputs)) = eval_batch_size) ->
  exists row,
    files' (member_filename flags member) = Some row /\
    forall step inputs,
      0 <= step < steps_per_eval ->
      nth_error dataset_test (Z.to_nat step) = Some inputs ->
      py_slice row (step * eval_batch_size) ((step + 1) * eval_batch_size)
      = model (features inputs).
Proof.
  intros Hpos Hrun Hmodel Hnone Hlen Hfull.
  destruct (write_from_spec flags steps_per_eval dataset_test models 0
              files files' Hrun) as (_ & _ & _ & Hfresh).
  destruct (Hfresh member model Hmodel Hnone) as (row & Hpred & Hrow).
  exists row. split; [exact Hrow|].
  intros step inputs Hstep Hnth.
  unfold predict in Hpred.
  destruct (Z.of_nat (length dataset_test) <? steps_per_eval); [discriminate|].
  set (rows := map (fun inputs => model (features inputs))
                   (firstn (Z.to_nat steps_per_eval) dataset_test)) in *.
  assert (Hconcat : row = concat rows).
  { destruct rows; [discriminate | now injection Hpred as <-]. }
  assert (Hrows : Forall (fun r => length r = Z.to_nat eval_batch_size) rows).
  { unfold rows. apply Forall_map, Forall_forall. intros b Hb.
    rewrite Hlen. specialize (Hfull b Hb). lia. }
  assert (Hnth' : nth_error rows (Z.to_nat step) = Some (model (features inputs))).
  { unfold rows. rewrite nth_error_map, nth_error_firstn.
    replace (Z.to_nat step <? Z.to_nat steps_per_eval)%nat with true
      by (symmetry; apply Nat.ltb_lt; lia).
    now rewrite Hnth. }
  rewrite Hconcat.
  pose proof (py_slice_concat (Z.to_nat eval_batch_size) rows (Z.to_nat step)
                (model (features inputs)) Hrows Hnth') as Hslice.
  rewrite !Z2Nat.id in Hslice by lia. exact Hslice.
Qed.

End Align.

(** X14 on a run of two members over an output directory that holds
    predictions for member 1: member 0 is computed, the file of member 1 is
    kept, and both are read back. *)
Lemma predictions_are_cached_witness :
  exists files',
    write_predictions Samples.tmp_flags 2 Samples.two_batches
      [Samples.double_model; Samples.shift_model] Samples.stale_files
    = Returned files' /\
    files' "/tmp/out/1.npy"%string = Some [9; 9; 9; 9]%Q /\
    exists rows,
      load_predictions Samples.tmp_flags files' 2 = Returned rows /\
      length rows = 2%nat.
Proof.
  eexists. split; [reflexivity|].
  destruct (predictions_are_cached Samples.tmp_flags 2 Samples.two_batches
              [Samples.double_model; Samples.shift_model] Samples.stale_files
              _ eq_refl)
    as (_ & Hkeep & _ & rows & Hload & Hlen & _).
  split; [exact (Hkeep "/tmp/out/1.npy"%string _ eq_refl)|].
  exists rows. split; [exact Hload | exact Hlen].
Defined.


(** X16 on member 0 of that run: the second window of its file is the
    doubling model's output on the second batch. *)
Lemma cached_logits_align_witness :
  exists files' row,
    write_predictions Samples.tmp_flags 2 Samples.two_batches
      [Samples.double_model; Samples.shift_model] Samples.no_files
    = Returned files' /\
    files' (member_filename Samples.tmp_flags 0) = Some row /\
    py_slice row (1 * 2) ((1 + 1) * 2) = Samples.double_model [3; 4]%Q.
Proof.
  eexists.
  destruct (cached_logits_align Samples.tmp_flags 2 Samples.two_batches
              [Samples.double_model; Samples.shift_model] Samples.no_files
              _ 0 Samples.double_model 2 eq_refl eq_refl eq_refl eq_refl)
    as (row & Hrow & Hslice).
  - intros images. apply length_map.
  - intros inputs [<- | [<- | []]]; reflexivity.
  - exists row. split; [reflexivity|]. split; [exact Hrow|].
    exact (Hslice 1 _ ltac:(lia) eq_refl).
Defined.

Section Returns.

Context {Img : Type}.
Variable flags : Flags.
Variable steps_per_eval : Z.
Variable dataset_test : list (Batch Img).



End Returns.


End EnsembleFacts.
